(** * feathercharts: the DuckDB shell bridge, its REST glue and its provisioner

    A shallow embedding of the TypeScript sources

      - the REST server ([hashQuery], [getDuckDB], class [DuckDB] with
        [runCmd], [query], [initQueryHistoryTable], [saveQueryHistory],
        and the handlers of [createRestApi]),
      - the WebSocket servers ([ensureDuckDB], [handleWebSocket]),
      - the browser client ([isValidQuery], [sendQuery]),

    followed by the properties established about them.

    Conventions.  A string is its sequence of UTF-16 code units.  A
    stream is the sequence of chunks a reader will be given, followed
    by its end or by silence; an [await] that never settles is the
    outcome [Pending].  Effects on the subprocess are threaded
    explicitly through a [Proc] value. *)

From Stdlib Require Import List NArith ZArith Bool Arith Lia String Ascii.
Import ListNotations.

Local Open Scope N_scope.

(* ================================================================== *)
(** ** JavaScript strings *)
(* ================================================================== *)

(** A JavaScript string is a sequence of UTF-16 code units; every code
    unit is a number below 2^16. *)
Module JS.

Definition codeunit := N.
Definition jsstring := list codeunit.

(** Source-level literals: an ASCII literal of the program text. *)
Definition js (s : string) : jsstring :=
  List.map N_of_ascii (list_ascii_of_string s).

(** [s.startsWith(p)] *)
Fixpoint startsWith (s p : jsstring) {struct p} : bool :=
  match p, s with
  | [], _ => true
  | _ :: _, [] => false
  | c :: p', d :: s' => (c =? d) && startsWith s' p'
  end.

(** [s.endsWith(p)] *)
Definition endsWith (s p : jsstring) : bool :=
  startsWith (rev s) (rev p).

(** [s.includes(p)] *)
Fixpoint includes (s p : jsstring) : bool :=
  startsWith s p ||
  match s with
  | [] => false
  | _ :: s' => includes s' p
  end.

(** WhiteSpace and LineTerminator code points of ECMAScript, which are
    what [String.prototype.trim] strips. *)
Definition isWhiteSpace (c : codeunit) : bool :=
  (c =? 0x0009) || (c =? 0x000A) || (c =? 0x000B) || (c =? 0x000C) ||
  (c =? 0x000D) || (c =? 0x0020) || (c =? 0x00A0) || (c =? 0x1680) ||
  ((0x2000 <=? c) && (c <=? 0x200A)) ||
  (c =? 0x2028) || (c =? 0x2029) || (c =? 0x202F) || (c =? 0x205F) ||
  (c =? 0x3000) || (c =? 0xFEFF).

Fixpoint trimStart (s : jsstring) : jsstring :=
  match s with
  | [] => []
  | c :: s' => if isWhiteSpace c then trimStart s' else s
  end.

Definition trimEnd (s : jsstring) : jsstring := rev (trimStart (rev s)).

(** [s.trim()] *)
Definition trim (s : jsstring) : jsstring := trimEnd (trimStart s).

(** [parts.join(sep)] *)
Fixpoint join (sep : jsstring) (parts : list jsstring) : jsstring :=
  match parts with
  | [] => []
  | [p] => p
  | p :: rest => p ++ sep ++ join sep rest
  end.

(** Position of the first occurrence of [p] in [s], as the pair of the
    text before it and the text after it. *)
Fixpoint splitFirst (s p : jsstring) : option (jsstring * jsstring) :=
  if startsWith s p then Some ([], skipn (List.length p) s)
  else match s with
       | [] => None
       | c :: s' =>
           match splitFirst s' p with
           | Some (before, after) => Some (c :: before, after)
           | None => None
           end
       end.

(** [GetSubstitution] for a string pattern: there are no captures, so
    [$$], [$&], [$`] and [$'] are expanded and every other [$] stays. *)
Fixpoint getSubstitution (matched before after repl : jsstring) : jsstring :=
  match repl with
  | [] => []
  | c :: rest =>
      if c =? 0x24 then
        match rest with
        | d :: rest' =>
            if d =? 0x24 then 0x24 :: getSubstitution matched before after rest'
            else if d =? 0x26 then matched ++ getSubstitution matched before after rest'
            else if d =? 0x60 then before ++ getSubstitution matched before after rest'
            else if d =? 0x27 then after ++ getSubstitution matched before after rest'
            else c :: getSubstitution matched before after rest
        | [] => [c]
        end
      else c :: getSubstitution matched before after rest
  end.

(** [s.replace(p, repl)] with a string pattern [p]: only the first
    occurrence is replaced. *)
Definition replace (s p repl : jsstring) : jsstring :=
  match splitFirst s p with
  | None => s
  | Some (before, after) => before ++ getSubstitution p before after repl ++ after
  end.

(** [s.replace(/c/g, repl)] for a one-character pattern and a
    replacement text without [$]. *)
Definition replaceAllChar (c : codeunit) (repl s : jsstring) : jsstring :=
  flat_map (fun d => if d =? c then repl else [d]) s.

(** Decimal rendering of a non-negative integer, as in [`${n}`]. *)
Fixpoint digits (u : Decimal.uint) : jsstring :=
  match u with
  | Decimal.Nil => []
  | Decimal.D0 u => 0x30 :: digits u
  | Decimal.D1 u => 0x31 :: digits u
  | Decimal.D2 u => 0x32 :: digits u
  | Decimal.D3 u => 0x33 :: digits u
  | Decimal.D4 u => 0x34 :: digits u
  | Decimal.D5 u => 0x35 :: digits u
  | Decimal.D6 u => 0x36 :: digits u
  | Decimal.D7 u => 0x37 :: digits u
  | Decimal.D8 u => 0x38 :: digits u
  | Decimal.D9 u => 0x39 :: digits u
  end.

Definition numberToString (n : nat) : jsstring := digits (Nat.to_uint n).

(** Number of occurrences of a code unit. *)
Definition countChar (c : codeunit) (s : jsstring) : nat :=
  List.length (filter (N.eqb c) s).

End JS.
Import JS.

(* ================================================================== *)
(** ** Fingerprints: [hashQuery] *)
(* ================================================================== *)

(** [new TextEncoder().encode(str)]: the UTF-8 bytes of a string.  A
    surrogate pair encodes one supplementary code point; an unpaired
    surrogate is replaced by U+FFFD. *)
Module TextEncoder.

Definition isHighSurrogate (c : codeunit) : bool := (0xD800 <=? c) && (c <=? 0xDBFF).
Definition isLowSurrogate (c : codeunit) : bool := (0xDC00 <=? c) && (c <=? 0xDFFF).

Definition utf8 (cp : N) : list N :=
  if cp <? 0x80 then [cp]
  else if cp <? 0x800 then
    [N.lor 0xC0 (N.shiftr cp 6); N.lor 0x80 (N.land cp 0x3F)]
  else if cp <? 0x10000 then
    [N.lor 0xE0 (N.shiftr cp 12);
     N.lor 0x80 (N.land (N.shiftr cp 6) 0x3F);
     N.lor 0x80 (N.land cp 0x3F)]
  else
    [N.lor 0xF0 (N.shiftr cp 18);
     N.lor 0x80 (N.land (N.shiftr cp 12) 0x3F);
     N.lor 0x80 (N.land (N.shiftr cp 6) 0x3F);
     N.lor 0x80 (N.land cp 0x3F)].

Fixpoint encode (s : jsstring) : list N :=
  match s with
  | [] => []
  | c :: rest =>
      if isHighSurrogate c then
        match rest with
        | d :: rest' =>
            if isLowSurrogate d
            then utf8 (0x10000 + N.shiftl (c - 0xD800) 10 + (d - 0xDC00)) ++ encode rest'
            else utf8 0xFFFD ++ encode rest
        | [] => utf8 0xFFFD
        end
      else if isLowSurrogate c then utf8 0xFFFD ++ encode rest
      else utf8 c ++ encode rest
  end.

End TextEncoder.

(** [crypto.subtle.digest("SHA-256", bytes)] (FIPS 180-4). *)
Module SHA256.

Definition w32 (x : N) : N := N.land x 0xFFFFFFFF.
Definition add32 (x y : N) : N := w32 (x + y).
Definition rotr (n x : N) : N := N.lor (N.shiftr x n) (w32 (N.shiftl x (32 - n))).
Definition not32 (x : N) : N := N.lxor x 0xFFFFFFFF.

Definition Ch (x y z : N) : N := N.lxor (N.land x y) (N.land (not32 x) z).
Definition Maj (x y z : N) : N :=
  N.lxor (N.lxor (N.land x y) (N.land x z)) (N.land y z).
Definition Sigma0 (x : N) : N := N.lxor (N.lxor (rotr 2 x) (rotr 13 x)) (rotr 22 x).
Definition Sigma1 (x : N) : N := N.lxor (N.lxor (rotr 6 x) (rotr 11 x)) (rotr 25 x).
Definition sigma0 (x : N) : N := N.lxor (N.lxor (rotr 7 x) (rotr 18 x)) (N.shiftr x 3).
Definition sigma1 (x : N) : N := N.lxor (N.lxor (rotr 17 x) (rotr 19 x)) (N.shiftr x 10).

(** The first sixty-four primes. *)
Definition isPrime (n : N) : bool :=
  forallb (fun d => negb (n mod d =? 0))
          (List.map N.of_nat (seq 2 (N.to_nat n - 2))).

Definition primes : list N :=
  Eval vm_compute in firstn 64 (filter isPrime (List.map N.of_nat (seq 2 310))).

(** Integer cube root, one bit at a time. *)
Fixpoint cubeRoot (bits : nat) (n r : N) : N :=
  match bits with
  | O => r
  | S b =>
      let r' := r + N.shiftl 1 (N.of_nat b) in
      if r' * r' * r' <=? n then cubeRoot b n r' else cubeRoot b n r
  end.

(** Round constants: the first thirty-two bits of the fractional parts
    of the cube roots of the primes. *)
Definition K : list N :=
  Eval vm_compute in
    List.map (fun p => w32 (cubeRoot 40 (N.shiftl p 96) 0)) primes.

(** Initial hash value: the same of the square roots of the first
    eight primes. *)
Definition H0 : list N :=
  Eval vm_compute in
    List.map (fun p => w32 (N.sqrt (N.shiftl p 64))) (firstn 8 primes).

(** Big-endian bytes of a number, [n] of them. *)
Fixpoint bytesBE (n : nat) (x : N) : list N :=
  match n with
  | O => []
  | S n' => N.land (N.shiftr x (8 * N.of_nat n')) 0xFF :: bytesBE n' x
  end.

Definition pad (msg : list N) : list N :=
  let len := List.length msg in
  let zeros := ((64 - ((len + 9) mod 64)) mod 64)%nat in
  msg ++ [0x80] ++ repeat 0 zeros ++ bytesBE 8 (8 * N.of_nat len).

(** The big-endian 32-bit words of a byte sequence. *)
Fixpoint words (bs : list N) : list N :=
  match bs with
  | a :: b :: c :: d :: rest =>
      (N.shiftl a 24 + N.shiftl b 16 + N.shiftl c 8 + d) :: words rest
  | _ => []
  end.

(** Message schedule, most recent word first. *)
Fixpoint schedule (n : nat) (ws : list N) : list N :=
  match n with
  | O => ws
  | S n' =>
      let w := add32 (add32 (sigma1 (nth 1 ws 0)) (nth 6 ws 0))
                     (add32 (sigma0 (nth 14 ws 0)) (nth 15 ws 0)) in
      schedule n' (w :: ws)
  end.

Definition round (st : list N) (kw : N * N) : list N :=
  match st with
  | [a; b; c; d; e; f; g; h] =>
      let t1 := add32 (add32 (add32 h (Sigma1 e)) (add32 (Ch e f g) (fst kw))) (snd kw) in
      let t2 := add32 (Sigma0 a) (Maj a b c) in
      [add32 t1 t2; a; b; c; add32 d t1; e; f; g]
  | _ => st
  end.

Definition compress (h : list N) (block : list N) : list N :=
  let w := List.rev (schedule 48 (List.rev (words block))) in
  let st := fold_left round (combine K w) h in
  List.map (fun p => add32 (fst p) (snd p)) (combine h st).

Fixpoint blocks (fuel : nat) (bs : list N) : list (list N) :=
  match fuel with
  | O => []
  | S fuel' =>
      match bs with
      | [] => []
      | _ => firstn 64 bs :: blocks fuel' (skipn 64 bs)
      end
  end.

Definition digest (msg : list N) : list N :=
  let p := pad msg in
  flat_map (bytesBE 4) (fold_left compress (blocks (List.length p) p) H0).

End SHA256.

Module Fingerprint.

Definition hexDigit (d : N) : codeunit :=
  if d <? 10 then 0x30 + d else 0x61 + (d - 10).

(** [b.toString(16)] for a byte. *)
Definition toString16 (b : N) : jsstring :=
  if b <? 16 then [hexDigit b] else [hexDigit (b / 16); hexDigit (b mod 16)].

(** [s.padStart(2, '0')] *)
Definition padStart2 (s : jsstring) : jsstring :=
  repeat 0x30 (2 - List.length s)%nat ++ s.

(** [hashQuery]: SHA-256 of the UTF-8 text, as lower-case hexadecimal. *)
Definition hashQuery (str : jsstring) : jsstring :=
  let hash := SHA256.digest (TextEncoder.encode str) in
  join [] (List.map (fun b => padStart2 (toString16 b)) hash).

End Fingerprint.


(* ================================================================== *)
(** ** Binary provisioner: [getDuckDB] / [ensureDuckDB] *)
(* ================================================================== *)

Module Provisioner.

(** What the function observes of its host.  [which] is the standard
    output of [which duckdb], or [None] when the command cannot be run
    (the [.catch(() => "")] branch); [files] are the paths for which
    [Deno.stat] succeeds; [curl_ok] is the exit status of the install
    shell command and [archive] the entry names of the downloaded zip,
    which [unzip -d /tmp] creates under [/tmp]. *)
Record Host := {
  which : option jsstring;
  files : list jsstring;
  build_os : jsstring;
  build_arch : jsstring;
  curl_ok : bool;
  archive : list jsstring
}.

Definition jsEq (a b : jsstring) : bool :=
  if list_eq_dec N.eq_dec a b then true else false.

(** [fileExists(file)]: [Deno.stat(file)] resolves. *)
Definition fileExists (h : Host) (file : jsstring) : bool :=
  existsb (jsEq file) (files h).

(** Side effects, in program order. *)
Inductive Action :=
| RunWhich
| Stat (path : jsstring)
| Download (url : jsstring).

Inductive Result :=
| Path (p : jsstring)
| InstallationError.

Definition cachePath : jsstring := js "/tmp/duckdb".

(** The first element of the candidate array. *)
Definition whichPath (h : Host) : jsstring :=
  match which h with
  | Some stdout => trim stdout
  | None => []
  end.

(** The candidate array of the [for ... of] loop, in its order. *)
Definition candidates (h : Host) : list jsstring := [whichPath h; cachePath].

Definition downloadUrl (h : Host) : jsstring :=
  let os := if jsEq (build_os h) (js "darwin") then js "osx" else js "linux" in
  let arch := if jsEq (build_arch h) (js "x86_64") then js "amd64" else build_arch h in
  js "https://github.com/duckdb/duckdb/releases/latest/download/duckdb_cli-"
    ++ os ++ js "-" ++ arch ++ js ".zip".

(** The [for] loop: the first candidate that exists is returned. *)
Fixpoint firstExisting (h : Host) (paths : list jsstring)
  : option jsstring * list Action :=
  match paths with
  | [] => (None, [])
  | path :: rest =>
      if fileExists h path then (Some path, [Stat path])
      else let '(r, tr) := firstExisting h rest in (r, Stat path :: tr)
  end.

(** The host after the install command has run. *)
Definition install (h : Host) : Host :=
  if curl_ok h
  then {| which := which h;
          files := files h ++ List.map (fun e => js "/tmp/" ++ e) (archive h);
          build_os := build_os h; build_arch := build_arch h;
          curl_ok := curl_ok h; archive := archive h |}
  else h.

Definition getDuckDB (h : Host) : Result * Host * list Action :=
  match firstExisting h (candidates h) with
  | (Some path, tr) => (Path path, h, RunWhich :: tr)
  | (None, tr) =>
      let url := downloadUrl h in
      let h' := install h in
      (if curl_ok h then Path cachePath else InstallationError,
       h', RunWhich :: tr ++ [Download url])
  end.

Definition isDownload (a : Action) : bool :=
  match a with Download _ => true | _ => false end.

Definition downloads (tr : list Action) : nat :=
  List.length (filter isDownload tr).

End Provisioner.

(* ================================================================== *)
(** ** Process supervisor: class [DuckDB] *)
(* ================================================================== *)

Module Supervisor.

Definition LF : jsstring := [0x0A].

(** The completion marker of the stdout loop. *)
Definition marker : jsstring := js "Run Time:".

(** What a reader will deliver: the chunks still to come, each already
    decoded by [new TextDecoder().decode(value)], and what follows
    them: the stream ends ([read()] gives [done]), or no data ever
    arrives and the pending [read()] never settles. *)
Inductive StreamEnd := Closed | Silent.

Record Stream := { chunks : list jsstring; final : StreamEnd }.

(** How a [while (true)] read loop is left. *)
Inductive LoopExit :=
| Break     (* the accumulated text satisfied the loop's test *)
| Done      (* [done] was read *)
| Stuck.    (* [await read()] never settles *)

(** The two read loops of [runCmd] have one shape:
    [{done, value} = await read(); if (done) break;
     acc += decode(value); if (stop(acc)) break;] *)
Fixpoint readLoop (stop : jsstring -> bool) (acc : jsstring)
         (cs : list jsstring) (e : StreamEnd) : LoopExit * jsstring * Stream :=
  match cs with
  | [] =>
      match e with
      | Closed => (Done, acc, {| chunks := []; final := e |})
      | Silent => (Stuck, acc, {| chunks := []; final := e |})
      end
  | value :: cs' =>
      let acc' := acc ++ value in
      if stop acc' then (Break, acc', {| chunks := cs'; final := e |})
      else readLoop stop acc' cs' e
  end.

Definition readStdout (s : Stream) : LoopExit * jsstring * Stream :=
  readLoop (fun out => includes out marker) [] (chunks s) (final s).

Definition readStderr (s : Stream) : LoopExit * jsstring * Stream :=
  readLoop (fun err => includes err LF) [] (chunks s) (final s).

(** One subprocess as the class sees it.  [stdin] is the sequence of
    texts handed to [stdin.write], oldest first; [accepts] is how many
    further writes the pipe takes before it rejects them ([None]: it
    never does). *)
Record Proc := {
  stdin : list jsstring;
  accepts : option nat;
  stdout : Stream;
  stderr : Stream
}.

Inductive Error :=
| WriteError                       (* [stdin.write] rejected *)
| EngineError (message : jsstring) (* [new Error(err.trim())] *)
| IoError.                         (* a [Deno] file operation rejected *)

(** The fate of an awaited promise. *)
Inductive Outcome (A : Type) :=
| Resolved (v : A)
| Rejected (e : Error)
| Pending.
Arguments Resolved {A} v.
Arguments Rejected {A} e.
Arguments Pending {A}.

(** [this.stdin.write(new TextEncoder().encode(text))] *)
Definition write (text : jsstring) (p : Proc) : option Proc :=
  match accepts p with
  | Some O => None
  | Some (S k) =>
      Some {| stdin := stdin p ++ [text]; accepts := Some k;
              stdout := stdout p; stderr := stderr p |}
  | None =>
      Some {| stdin := stdin p ++ [text]; accepts := None;
              stdout := stdout p; stderr := stderr p |}
  end.

(** [runCmd] after its write: the stdout loop, then the stderr loop,
    then the result. *)
Definition awaitCmd (p : Proc) : Outcome jsstring * Proc :=
  match readStdout (stdout p) with
  | (Stuck, _, so) =>
      (Pending, {| stdin := stdin p; accepts := accepts p;
                   stdout := so; stderr := stderr p |})
  | (_, out, so) =>
      match readStderr (stderr p) with
      | (Stuck, _, se) =>
          (Pending, {| stdin := stdin p; accepts := accepts p;
                       stdout := so; stderr := se |})
      | (_, err, se) =>
          let p' := {| stdin := stdin p; accepts := accepts p;
                       stdout := so; stderr := se |} in
          match err with
          | [] => (Resolved (trim out), p')
          | _ :: _ => (Rejected (EngineError (trim err)), p')
          end
      end
  end.

Definition runCmd (cmd : jsstring) (p : Proc) : Outcome jsstring * Proc :=
  match write (cmd ++ LF) p with
  | None => (Rejected WriteError, p)
  | Some p1 => awaitCmd p1
  end.

(** [params.map((_, i) => `$${i + 1}`).join(', ')] *)
Definition paramPlaceholders (params : list jsstring) : jsstring :=
  join (js ", ")
       (List.map (fun i => js "$" ++ numberToString (i + 1))
                 (seq 0 (List.length params))).

(** [sql.replace('?', paramPlaceholders)] *)
Definition fullSql (sql : jsstring) (params : list jsstring) : jsstring :=
  replace sql (js "?") (paramPlaceholders params).

(** The command text of [query]. *)
Definition queryCmd (sql : jsstring) (params : list jsstring) : jsstring :=
  js "PREPARE stmt AS " ++ fullSql sql params ++ js "; EXECUTE stmt"
    ++ (if (0 <? List.length params)%nat
        then js " (" ++ join (js ", ") params ++ js ")"
        else [])
    ++ js ";".

(** [query]; the text it resolves with is what [JSON.parse] is given. *)
Definition query (sql : jsstring) (params : list jsstring) (p : Proc)
  : Outcome jsstring * Proc :=
  runCmd (queryCmd sql params) p.

Definition createHistoryTable : jsstring := js "
      CREATE TABLE IF NOT EXISTS _query_history (
        query_hash VARCHAR,
        query_text TEXT,
        result_file VARCHAR,
        query_time DOUBLE,
        execution_time TIMESTAMP
      );
    ".

Definition initQueryHistoryTable (p : Proc) : Outcome jsstring * Proc :=
  runCmd createHistoryTable p.

(** The statement built by [saveQueryHistory]; [queryTime] is the text
    that the template renders for the number. *)
Definition insertHistory (queryHash queryText resultFile queryTime : jsstring)
  : jsstring :=
  let escapedQueryText := replaceAllChar 0x27 (js "''") queryText in
  js "
      INSERT INTO _query_history (query_hash, query_text, result_file, query_time, execution_time)
      VALUES ('" ++ queryHash ++ js "', '" ++ escapedQueryText ++ js "', '"
    ++ resultFile ++ js "', " ++ queryTime ++ js ", CURRENT_TIMESTAMP);
    ".

Definition saveQueryHistory (queryHash queryText resultFile queryTime : jsstring)
           (p : Proc) : Outcome jsstring * Proc :=
  runCmd (insertHistory queryHash queryText resultFile queryTime) p.

(** A call of [runCmd] that is not awaited runs up to its first
    [await]: the write is issued, the rest of the call stays pending. *)
Definition startCmd (cmd : jsstring) (p : Proc) : Proc :=
  match write (cmd ++ LF) p with
  | Some p' => p'
  | None => p
  end.

(** The process right after [spawn()]: nothing written yet. *)
Definition spawn (acc : option nat) (out err : Stream) : Proc :=
  {| stdin := []; accepts := acc; stdout := out; stderr := err |}.

(** The constructor: spawn, then [.echo on], [.timer on] and the
    history table, none of them awaited. *)
Definition construct (acc : option nat) (out err : Stream) : Proc :=
  let p := spawn acc out err in
  let p := fold_left (fun p cmd => startCmd cmd p) [js ".echo on"; js ".timer on"] p in
  startCmd createHistoryTable p.

End Supervisor.

(** The stdout loop of [runCmd], one [read()] at a time: the state of
    the completion detector between two reads. *)
Module Detector.
Import Supervisor.

Inductive State :=
| Awaiting (out : jsstring)   (* inside the loop *)
| Matched (out : jsstring)    (* left by [break] on the marker *)
| Ended (out : jsstring).     (* left by [break] on [done] *)

Inductive Read :=
| Value (v : jsstring)
| EndOfStream.

(** One iteration.  Once the loop has been left no further [read()]
    is issued by this call, so what the stream holds stays there. *)
Definition onRead (st : State) (r : Read) : State :=
  match st with
  | Awaiting out =>
      match r with
      | EndOfStream => Ended out
      | Value v =>
          let out' := out ++ v in
          if includes out' marker then Matched out' else Awaiting out'
      end
  | _ => st
  end.

(** The iteration signals completion when it leaves the loop on the
    marker. *)
Definition signals (st : State) (r : Read) : bool :=
  match st, onRead st r with
  | Awaiting _, Matched _ => true
  | _, _ => false
  end.

(** Completion signals along a sequence of reads. *)
Fixpoint countSignals (st : State) (rs : list Read) : nat :=
  match rs with
  | [] => 0%nat
  | r :: rs' =>
      ((if signals st r then 1 else 0) + countSignals (onRead st r) rs')%nat
  end.

Definition run (st : State) (rs : list Read) : State := fold_left onRead rs st.

End Detector.

(* ================================================================== *)
(** ** REST glue: [createRestApi] *)
(* ================================================================== *)

Module RestApi.
Import Supervisor.

(** [ctx.request.body]: oak's [Body] object around the payload of the
    request.  The payload is reached through its methods ([text()] at
    line 206).  The object keeps its state in private fields and has no
    enumerable property of its own, so [Object.keys] and
    [Object.values] of it are empty, whatever the payload. *)
Record RequestBody := { payload : jsstring }.

Definition bodyText (b : RequestBody) : jsstring := payload b.

Definition objectKeys (b : RequestBody) : list jsstring := [].

Definition objectValues (b : RequestBody) : list jsstring := [].

(** [PUT /api/:table/:id]: the statement and its parameters.  [body]
    is [await ctx.request.body], the [Body] object itself. *)
Definition setClauses (body : RequestBody) : jsstring :=
  join (js ", ") (List.map (fun key => key ++ js " = ?") (objectKeys body)).

Definition putSql (table : jsstring) (body : RequestBody) : jsstring :=
  js "UPDATE " ++ table ++ js " SET " ++ setClauses body
    ++ js " WHERE id = ? RETURNING *".

Definition putParams (body : RequestBody) (id : jsstring) : list jsstring :=
  objectValues body ++ [id].

Definition putCmd (table id : jsstring) (body : RequestBody) : jsstring :=
  queryCmd (putSql table body) (putParams body id).

(** The world of a request handler: the shared process and the files
    the handler touches.  [canWriteFile] says whether
    [Deno.writeTextFile] resolves, [readFile] what [Deno.readFile]
    resolves with ([None]: it rejects). *)
Record World := {
  proc : Proc;
  canWriteFile : bool;
  readFile : jsstring -> option (list N);
  textFiles : list (jsstring * jsstring)
}.

Definition M (A : Type) : Type := World -> Outcome A * World.

Definition ret {A} (a : A) : M A := fun w => (Resolved a, w).

Definition bind {A B} (m : M A) (k : A -> M B) : M B :=
  fun w =>
    match m w with
    | (Resolved a, w') => k a w'
    | (Rejected e, w') => (Rejected e, w')
    | (Pending, w') => (Pending, w')
    end.

Notation "x <- m ;; k" := (bind m (fun x => k))
  (at level 61, m at next level, right associativity).

(** [try { m } catch (error) { h(error) }] *)
Definition tryCatch {A} (m : M A) (h : Error -> M A) : M A :=
  fun w =>
    match m w with
    | (Rejected e, w') => h e w'
    | r => r
    end.

Definition onProc {A} (f : Proc -> Outcome A * Proc) : M A :=
  fun w =>
    let '(r, p') := f (proc w) in
    (r, {| proc := p'; canWriteFile := canWriteFile w;
           readFile := readFile w; textFiles := textFiles w |}).

Definition writeTextFile (path text : jsstring) : M unit :=
  fun w =>
    if canWriteFile w
    then (Resolved tt, {| proc := proc w; canWriteFile := canWriteFile w;
                          readFile := readFile w;
                          textFiles := textFiles w ++ [(path, text)] |})
    else (Rejected IoError, w).

Definition denoReadFile (path : jsstring) : M (list N) :=
  fun w =>
    match readFile w path with
    | Some content => (Resolved content, w)
    | None => (Rejected IoError, w)
    end.

Inductive Body :=
| TextBody (text : jsstring)
| BytesBody (content : list N)
| ErrorBody (error : Error).   (* [{ error: error.message }] *)

Record Response := {
  status : N;
  headers : list (jsstring * jsstring);
  body : Body
}.

Definition isParquet (format : option jsstring) : bool :=
  match format with
  | Some f => Provisioner.jsEq f (js "parquet")
  | None => false
  end.

(** [POST /api/query].  [format] is the [format] search parameter;
    [queryTime] is the rendered elapsed time handed to
    [saveQueryHistory]. *)
Definition apiQuery (query : jsstring) (format : option jsstring)
           (queryTime : jsstring) : M Response :=
  tryCatch
    (let hash := Fingerprint.hashQuery query in
     let sqlPath := js "queries/" ++ hash ++ js ".sql" in
     _ <- writeTextFile (js "html/" ++ sqlPath) query ;;
     if isParquet format then
       let parquetPath := js "queries/" ++ hash ++ js ".parquet" in
       _ <- onProc (runCmd (js "COPY (" ++ query ++ js ") TO 'html/"
                              ++ parquetPath ++ js "' (FORMAT PARQUET);")) ;;
       _ <- onProc (saveQueryHistory hash query parquetPath queryTime) ;;
       parquetContent <- denoReadFile (js "html/" ++ parquetPath) ;;
       ret {| status := 200;
              headers := [(js "Content-Type", js "application/octet-stream");
                          (js "Content-Disposition",
                           js "attachment; filename=" ++ hash ++ js ".parquet")];
              body := BytesBody parquetContent |}
     else
       output <- onProc (runCmd query) ;;
       _ <- onProc (saveQueryHistory hash query [] queryTime) ;;
       ret {| status := 200; headers := []; body := TextBody output |})
    (fun error => ret {| status := 400; headers := []; body := ErrorBody error |}).

End RestApi.

(* ================================================================== *)
(** ** Session bridge: [handleWebSocket] *)
(* ================================================================== *)

Module Bridge.

(** [event.data] of a client frame. *)
Inductive Data :=
| Text (data : jsstring)
| Binary (data : list N).

(** What happens to one connection, in order of occurrence. *)
Inductive Event :=
| OnMessage (data : Data)            (* [ws.onmessage] *)
| StdoutRead (content : jsstring)    (* a chunk read from stdout *)
| StderrRead (content : jsstring)    (* a chunk read from stderr *)
| OnClose.                           (* [ws.onclose] *)

(** The connection's subprocess and socket: the texts written to the
    process input, whether [ws.onclose] has closed the writer and
    killed the process, and the frames sent to the client.  The frames
    are those of the server that tags them [stdout:] and [stderr:]; the
    older server sends the same content as JSON and has the same
    [onmessage] and [onclose] handlers. *)
Record Session := {
  stdin : list jsstring;
  closed : bool;
  sent : list jsstring
}.

(** [handleWebSocket] up to the installation of its handlers: the
    process is spawned and nothing is written to it. *)
Definition handleWebSocket : Session :=
  {| stdin := []; closed := false; sent := [] |}.

Definition step (s : Session) (e : Event) : Session :=
  match e with
  | OnMessage (Text data) =>
      if closed s then s
      else {| stdin := stdin s ++ [data ++ Supervisor.LF];
              closed := closed s; sent := sent s |}
  | OnMessage (Binary _) => s
  | StdoutRead content =>
      {| stdin := stdin s; closed := closed s;
         sent := sent s ++ [js "stdout:" ++ content] |}
  | StderrRead content =>
      {| stdin := stdin s; closed := closed s;
         sent := sent s ++ [js "stderr:" ++ content] |}
  | OnClose =>
      {| stdin := stdin s; closed := true; sent := sent s |}
  end.

Definition run (s : Session) (es : list Event) : Session := fold_left step es s.

(** The text frames of a trace. *)
Fixpoint textFrames (es : list Event) : list jsstring :=
  match es with
  | [] => []
  | OnMessage (Text data) :: es' => data :: textFrames es'
  | _ :: es' => textFrames es'
  end.

Definition isOutput (e : Event) : bool :=
  match e with
  | StdoutRead _ | StderrRead _ => true
  | _ => false
  end.

Definition isClose (e : Event) : bool :=
  match e with OnClose => true | _ => false end.

End Bridge.

(* ================================================================== *)
(** ** Browser client: [duckdbApp] *)
(* ================================================================== *)

Module Client.

Record Command := { query : jsstring; time : N }.

(** The application object of the client that speaks the [stdout:] /
    [stderr:] framing; [ws] says whether the socket has been created.
    The fields that only drive the rendering of the result table
    (table data and headers, sorting, filters, the parse timer) are
    left out; the other client variants have the same [isValidQuery]
    and the same test and [ws.send] in [sendQuery]. *)
Record App := {
  ws : bool;
  currentQuery : jsstring;
  output : jsstring;
  previousCommands : list Command;
  loading : bool;
  commandIndex : option nat;    (* [None] is [-1] *)
  startTime : N;
  outputBuffer : jsstring
}.

Definition isValidQuery (a : App) : bool :=
  let query := trim (currentQuery a) in
  startsWith query (js ".") || endsWith query (js ";").

(** [sendQuery()] at time [now]: the new state and the frame handed to
    [ws.send], if any. *)
Definition sendQuery (now : N) (a : App) : App * option jsstring :=
  if isValidQuery a && ws a then
    ({| ws := ws a;
        currentQuery := [];
        output := output a ++ js "> " ++ currentQuery a ++ Supervisor.LF;
        previousCommands := {| query := currentQuery a; time := 0 |} :: previousCommands a;
        loading := true;
        commandIndex := None;
        startTime := now;
        outputBuffer := [] |},
     Some (currentQuery a))
  else (a, None).

(** What reaches the process input when the client sends its current
    text over a fresh connection. *)
Definition submit (now : N) (a : App) (s : Bridge.Session) : Bridge.Session :=
  match snd (sendQuery now a) with
  | Some frame => Bridge.step s (Bridge.OnMessage (Bridge.Text frame))
  | None => s
  end.

End Client.

(* ================================================================== *)
(** ** Scenarios and reading aids *)
(* ================================================================== *)

Import Supervisor.
Import RestApi.
Import Provisioner.
Import TextEncoder.
Import Fingerprint.

(** *** Processes and hosts used as examples *)

(** The command of scenario B, with echo on: the statement is echoed
    on stdout, the engine reports on stderr, no timing line follows and
    both streams stay open. *)
Definition failingSelect : Proc :=
  spawn None
        {| chunks := [js "SELECT * FROM nope;" ++ LF]; final := Silent |}
        {| chunks := [js "Catalog Error: Table with name nope does not exist!" ++ LF];
           final := Silent |}.

(** A command with no primary output at all before its error. *)
Definition silentFailure : Proc :=
  spawn None
        {| chunks := []; final := Silent |}
        {| chunks := [js "Error: unrecognized token" ++ LF]; final := Silent |}.

(** The shell leaves on [.quit]: with echo on the command is echoed,
    both streams end, and the pipe takes no write after the first. *)
Definition quitting (acc : option nat) : World :=
  {| proc := spawn acc {| chunks := [js ".quit" ++ LF]; final := Closed |}
                   {| chunks := []; final := Closed |};
     canWriteFile := true;
     readFile := fun _ => None;
     textFiles := [] |}.

(** A client with the given text typed in and its socket open. *)
Definition typing (text : string) : Client.App :=
  {| Client.ws := true; Client.currentQuery := js text; Client.output := [];
     Client.previousCommands := []; Client.loading := false;
     Client.commandIndex := None; Client.startTime := 0;
     Client.outputBuffer := [] |}.

(** A host with the binary both on the search path and in [/tmp]. *)
Definition bothInstalled : Host :=
  {| which := Some (js "/usr/bin/duckdb" ++ LF);
     files := [js "/usr/bin/duckdb"; js "/tmp/duckdb"];
     build_os := js "linux"; build_arch := js "x86_64";
     curl_ok := true; archive := [js "duckdb"] |}.

(** *** Reading aids *)

(** What the constructor writes, in order. *)
Definition initCommands : list jsstring :=
  [js ".echo on" ++ LF; js ".timer on" ++ LF; createHistoryTable ++ LF].

(** The question mark. *)
Definition QM : codeunit := 0x3F.

Definition isDigit (c : codeunit) : bool := (0x30 <=? c) && (c <=? 0x39).

(** A replacement text in which no [$] starts a substitution pattern. *)
Fixpoint literalRepl (r : jsstring) : bool :=
  match r with
  | [] => true
  | c :: rest =>
      (negb (c =? 0x24)
       || match rest with
          | d :: _ => negb ((d =? 0x24) || (d =? 0x26) || (d =? 0x60) || (d =? 0x27))
          | [] => true
          end)
      && literalRepl rest
  end.

(** One element of the placeholder list: a [$] and digits. *)
Definition isPlaceholder (p : jsstring) : Prop :=
  exists ds, p = 0x24 :: ds /\ forallb isDigit ds = true.

(** A string without unpaired surrogates: what decoding a request body
    or a text frame yields. *)
Fixpoint wellFormed (s : jsstring) : bool :=
  match s with
  | [] => true
  | c :: rest =>
      if isHighSurrogate c then
        match rest with
        | d :: rest' => isLowSurrogate d && wellFormed rest'
        | [] => false
        end
      else negb (isLowSurrogate c) && (c <? 0x10000) && wellFormed rest
  end.

(** Reading UTF-8 back. *)
Fixpoint decode (bs : list N) : jsstring :=
  match bs with
  | [] => []
  | b1 :: r1 =>
      if b1 <? 0x80 then b1 :: decode r1
      else if b1 <? 0xE0 then
        match r1 with
        | b2 :: r2 => ((b1 - 0xC0) * 64 + (b2 - 0x80)) :: decode r2
        | _ => []
        end
      else if b1 <? 0xF0 then
        match r1 with
        | b2 :: b3 :: r3 =>
            ((b1 - 0xE0) * 4096 + (b2 - 0x80) * 64 + (b3 - 0x80)) :: decode r3
        | _ => []
        end
      else
        match r1 with
        | b2 :: b3 :: b4 :: r4 =>
            let cp := (b1 - 0xF0) * 262144 + (b2 - 0x80) * 4096
                      + (b3 - 0x80) * 64 + (b4 - 0x80) in
            (0xD800 + (cp - 0x10000) / 1024)
              :: (0xDC00 + (cp - 0x10000) mod 1024) :: decode r4
        | _ => []
        end
  end.

(** The two hexadecimal digits of a byte. *)
Definition hex2 (b : N) : jsstring := padStart2 (toString16 b).

(** Reading the SQL texts of the class: the list between the first
    opening parenthesis and the matching end, split at its commas. *)
Module Sql.

Fixpoint splitOn (c : codeunit) (s : jsstring) : list jsstring :=
  match s with
  | [] => [[]]
  | d :: s' =>
      if d =? c then [] :: splitOn c s'
      else match splitOn c s' with
           | h :: t => (d :: h) :: t
           | [] => [[d]]
           end
  end.

Definition toUpperCase (s : jsstring) : jsstring :=
  List.map (fun c => if (0x61 <=? c) && (c <=? 0x7A) then c - 0x20 else c) s.

(** The text after the first [(]. *)
Definition afterOpen (s : jsstring) : jsstring :=
  match splitFirst s (js "(") with
  | Some (_, after) => after
  | None => []
  end.

(** The text before the last [)]. *)
Definition beforeLastClose (s : jsstring) : jsstring :=
  match splitFirst (List.rev s) (js ")") with
  | Some (_, before) => List.rev before
  | None => []
  end.

(** The text before the first [)]. *)
Definition beforeFirstClose (s : jsstring) : jsstring :=
  match splitFirst s (js ")") with
  | Some (before, _) => before
  | None => []
  end.

(** A column definition as its name and the rest of the definition. *)
Definition columnDef (text : jsstring) : jsstring * jsstring :=
  let t := trim text in
  match splitFirst t (js " ") with
  | Some (name, rest) => (name, trim rest)
  | None => (t, [])
  end.

(** The column definitions of a [CREATE TABLE] statement. *)
Definition columnDefs (ddl : jsstring) : list (jsstring * jsstring) :=
  List.map columnDef (splitOn 0x2C (beforeLastClose (afterOpen ddl))).

(** The column list of an [INSERT INTO t (...)] statement. *)
Definition insertColumns (stmt : jsstring) : list jsstring :=
  List.map trim (splitOn 0x2C (beforeFirstClose (afterOpen stmt))).

Definition quote (s : jsstring) : jsstring := js "'" ++ s ++ js "'".

End Sql.

(* ================================================================== *)
(** ** The other REST handlers *)
(* ================================================================== *)

Module RestBuild.

(** [ctx.request.url.searchParams]: the entries in their order. *)
Definition SearchParams := list (jsstring * jsstring).

(** [query.get(key)]: the first value of the key. *)
Fixpoint get (key : jsstring) (query : SearchParams) : option jsstring :=
  match query with
  | [] => None
  | (k, v) :: rest => if Provisioner.jsEq k key then Some v else get key rest
  end.

(** The test of the [for] loop of [GET /api/:table]. *)
Definition isFilter (key : jsstring) : bool :=
  negb (Provisioner.jsEq key (js "order"))
  && negb (Provisioner.jsEq key (js "limit"))
  && negb (Provisioner.jsEq key (js "offset"))
  && negb (Provisioner.jsEq key (js "format")).

(** The [for] loop: it pushes one clause and one parameter for each
    entry that is a filter. *)
Fixpoint collect (entries : SearchParams) (whereClauses params : list jsstring)
  : list jsstring * list jsstring :=
  match entries with
  | [] => (whereClauses, params)
  | (key, value) :: rest =>
      if isFilter key
      then collect rest (whereClauses ++ [key ++ js " = ?"]) (params ++ [value])
      else collect rest whereClauses params
  end.

(** [if (x) sql += prefix + x] for a value that may be absent. *)
Definition clause (prefix : jsstring) (x : option jsstring) : jsstring :=
  match x with
  | Some (c :: v) => prefix ++ c :: v
  | _ => []
  end.

(** The statement and the parameters of [GET /api/:table]. *)
Definition getSql (table : jsstring) (query : SearchParams) : jsstring :=
  let whereClauses := fst (collect query [] []) in
  js "SELECT * FROM " ++ table
    ++ (if (0 <? List.length whereClauses)%nat
        then js " WHERE " ++ join (js " AND ") whereClauses else [])
    ++ clause (js " ORDER BY ") (get (js "order") query)
    ++ clause (js " LIMIT ") (get (js "limit") query)
    ++ clause (js " OFFSET ") (get (js "offset") query).

Definition getParams (query : SearchParams) : list jsstring :=
  snd (collect query [] []).

(** [query.get("format") || "json"] *)
Definition getFormat (query : SearchParams) : jsstring :=
  match get (js "format") query with
  | Some (c :: v) => c :: v
  | _ => js "json"
  end.

(** The command that [GET /api/:table] hands to [runCmd];
    [tempParquetFile] is the name made from [Date.now()]. *)
Definition getCmd (table : jsstring) (query : SearchParams)
           (tempParquetFile : jsstring) : jsstring :=
  if Provisioner.jsEq (getFormat query) (js "parquet")
  then js "COPY (" ++ getSql table query ++ js ") TO '" ++ tempParquetFile
         ++ js "' (FORMAT PARQUET)"
  else Supervisor.queryCmd (getSql table query) (getParams query).

(** [POST /api/:table]; [body] is [await ctx.request.body], the
    [Body] object itself. *)
Definition postSql (table : jsstring) (body : RestApi.RequestBody) : jsstring :=
  let columns := join (js ", ") (RestApi.objectKeys body) in
  let values := RestApi.objectValues body in
  let placeholders := join (js ", ") (List.map (fun _ => js "?") values) in
  js "INSERT INTO " ++ table ++ js " (" ++ columns ++ js ") VALUES ("
    ++ placeholders ++ js ") RETURNING *".

Definition postCmd (table : jsstring) (body : RestApi.RequestBody) : jsstring :=
  Supervisor.queryCmd (postSql table body) (RestApi.objectValues body).

(** The handler up to [JSON.parse]: [db.query(sql, values)]. *)
Definition postTable (table : jsstring) (body : RestApi.RequestBody)
           (p : Supervisor.Proc) : Supervisor.Outcome jsstring * Supervisor.Proc :=
  Supervisor.query (postSql table body) (RestApi.objectValues body) p.

(** [DELETE /api/:table/:id] *)
Definition deleteSql (table : jsstring) : jsstring :=
  js "DELETE FROM " ++ table ++ js " WHERE id = ? RETURNING *".

Definition deleteCmd (table id : jsstring) : jsstring :=
  Supervisor.queryCmd (deleteSql table) [id].

End RestBuild.

(* ================================================================== *)
(** ** The router of [createRestApi] *)
(* ================================================================== *)

Module Router.

Inductive Method := GET | HEAD | POST | PUT | DELETE | PATCH | OPTIONS.

Definition methodEq (a b : Method) : bool :=
  match a, b with
  | GET, GET | HEAD, HEAD | POST, POST | PUT, PUT
  | DELETE, DELETE | PATCH, PATCH | OPTIONS, OPTIONS => true
  | _, _ => false
  end.

(** One piece of the request's pathname between two slashes (a single
    slash at the end of the pathname is ignored by the matcher): as it
    stands in the URL, which is what a route is matched against, and
    percent-decoded, which is what [ctx.params] presents. *)
Record Segment := { raw : jsstring; decoded : jsstring }.

Inductive Pattern :=
| Lit (text : jsstring)   (* [/api], [/query] *)
| Param.                  (* [/:table], [/:id] *)

(** The five handlers, named by their routes. *)
Inductive Handler := GetTable | PostTable | PutRow | DeleteRow | PostQuery.

Record Route := {
  methods : list Method;
  pattern : list Pattern;
  handler : Handler
}.

(** [router.get] answers [HEAD] as well. *)
Definition get (p : list Pattern) (h : Handler) : Route :=
  {| methods := [HEAD; GET]; pattern := p; handler := h |}.

Definition post (p : list Pattern) (h : Handler) : Route :=
  {| methods := [POST]; pattern := p; handler := h |}.

Definition put (p : list Pattern) (h : Handler) : Route :=
  {| methods := [PUT]; pattern := p; handler := h |}.

Definition delete (p : list Pattern) (h : Handler) : Route :=
  {| methods := [DELETE]; pattern := p; handler := h |}.

(** The routes in the order in which [createRestApi] registers them
    (lines 98, 152, 171, 190 and 205). *)
Definition createRestApi : list Route :=
  [ get    [Lit (js "api"); Param]             GetTable;
    post   [Lit (js "api"); Param]             PostTable;
    put    [Lit (js "api"); Param; Param]      PutRow;
    delete [Lit (js "api"); Param; Param]      DeleteRow;
    post   [Lit (js "api"); Lit (js "query")]  PostQuery ].

(** The literal parts of a route are compared without regard to the
    case of the letters a-z. *)
Definition upper (c : codeunit) : codeunit :=
  if (0x61 <=? c) && (c <=? 0x7A) then c - 0x20 else c.

Fixpoint sameIgnoringCase (a b : jsstring) : bool :=
  match a, b with
  | [], [] => true
  | c :: a', d :: b' => (upper c =? upper d) && sameIgnoringCase a' b'
  | _, _ => false
  end.

(** A pattern against the segments of a pathname: a literal takes the
    segment that spells it, a parameter takes any segment that is not
    empty and captures it. *)
Fixpoint matchPath (ps : list Pattern) (segs : list Segment)
  : option (list jsstring) :=
  match ps, segs with
  | [], [] => Some []
  | Lit text :: ps', s :: segs' =>
      if sameIgnoringCase (raw s) text then matchPath ps' segs' else None
  | Param :: ps', s :: segs' =>
      match raw s with
      | [] => None
      | _ :: _ =>
          match matchPath ps' segs' with
          | Some params => Some (decoded s :: params)
          | None => None
          end
      end
  | _, _ => None
  end.

(** The routes that match the method and the path are chained in the
    order of their registration, and no handler of [createRestApi]
    calls [next()]: the first of them answers, with its captures as
    [ctx.params].  When no route matches, the router passes the
    request on. *)
Fixpoint dispatch (routes : list Route) (m : Method) (path : list Segment)
  : option (Handler * list jsstring) :=
  match routes with
  | [] => None
  | r :: rest =>
      if existsb (methodEq m) (methods r)
      then match matchPath (pattern r) path with
           | Some params => Some (handler r, params)
           | None => dispatch rest m path
           end
      else dispatch rest m path
  end.

(** A segment without percent escapes. *)
Definition plain (text : jsstring) : Segment := {| raw := text; decoded := text |}.

End Router.

(* ================================================================== *)
(** ** The first WebSocket server: [fileExists], [ensureDuckDB] *)
(* ================================================================== *)

Module Legacy.

(** What [Deno.stat("./duckdb")] does. *)
Inductive StatResult :=
| Found
| NotFound          (* rejects with [Deno.errors.NotFound] *)
| StatFailure.      (* rejects with another error *)

Record Host := {
  stat : StatResult;
  os : jsstring;
  arch : jsstring;
  installOk : bool     (* [status.success] of the install process *)
}.

Inductive Error :=
| StatError                 (* the error of [Deno.stat], rethrown *)
| UnsupportedOS (os : jsstring)
| InstallFailed.

(** The effects of the function, in program order. *)
Inductive Action :=
| Log (text : jsstring)
| Spawn (program : jsstring) (args : list jsstring).

(** [fileExists]: only a missing file gives [false]. *)
Definition fileExists (h : Host) : Error + bool :=
  match stat h with
  | Found => inr true
  | NotFound => inr false
  | StatFailure => inl StatError
  end.

Definition release : jsstring :=
  js "https://github.com/duckdb/duckdb/releases/latest/download/duckdb_cli-".

(** The [switch] over the operating system. *)
Definition downloadUrl (os arch : jsstring) : option jsstring :=
  if Provisioner.jsEq os (js "windows")
  then Some (release ++ js "windows-" ++ arch ++ js ".zip")
  else if Provisioner.jsEq os (js "darwin")
  then Some (release ++ js "osx-universal.zip")
  else if Provisioner.jsEq os (js "linux")
  then Some (release ++ js "linux-" ++ arch ++ js ".zip")
  else None.

Definition installCmd (os url : jsstring) : Action :=
  if Provisioner.jsEq os (js "windows")
  then Spawn (js "powershell")
             [js "-Command";
              js "Invoke-WebRequest -Uri " ++ url
                ++ js " -OutFile duckdb.zip; Expand-Archive duckdb.zip .; Remove-Item duckdb.zip"]
  else Spawn (js "sh")
             [js "-c";
              js "curl -L " ++ url
                ++ js " -o duckdb.zip && unzip duckdb.zip && rm duckdb.zip && chmod +x duckdb"].

(** [ensureDuckDB]: how it ends ([inl]: it throws) and what it did. *)
Definition ensureDuckDB (h : Host) : (Error + unit) * list Action :=
  match fileExists h with
  | inl e => (inl e, [])
  | inr true => (inr tt, [Log (js "DuckDB found locally.")])
  | inr false =>
      let arch := if Provisioner.jsEq (arch h) (js "x86_64") then js "amd64" else arch h in
      match downloadUrl (os h) arch with
      | None =>
          (inl (UnsupportedOS (os h)), [Log (js "DuckDB not found. Installing...")])
      | Some url =>
          if installOk h
          then (inr tt, [Log (js "DuckDB not found. Installing...");
                         installCmd (os h) url;
                         Log (js "DuckDB installed successfully.")])
          else (inl InstallFailed, [Log (js "DuckDB not found. Installing...");
                                    installCmd (os h) url])
      end
  end.

Definition isSpawn (a : Action) : bool :=
  match a with Spawn _ _ => true | Log _ => false end.

End Legacy.

(* ================================================================== *)
(** ** The browser client: incoming frames and the history cursor *)
(* ================================================================== *)

Module ClientView.
Import Client.

(** [s.split(sep)] for a one-character separator. *)
Fixpoint split (sep : codeunit) (s : jsstring) : list jsstring :=
  match s with
  | [] => [[]]
  | c :: s' =>
      if c =? sep then [] :: split sep s'
      else match split sep s' with
           | h :: t => (c :: h) :: t
           | [] => [[c]]
           end
  end.

Definition colon : codeunit := 0x3A.

Definition withOutput (a : App) (output' outputBuffer' : jsstring) : App :=
  {| ws := ws a; currentQuery := currentQuery a; output := output';
     previousCommands := previousCommands a; loading := loading a;
     commandIndex := commandIndex a; startTime := startTime a;
     outputBuffer := outputBuffer' |}.

(** [appendOutput(content)] *)
Definition appendOutput (content : jsstring) (a : App) : App :=
  withOutput a (output a ++ content) (outputBuffer a).

(** [handleStdout(content)], up to the timer it arms. *)
Definition handleStdout (content : jsstring) (a : App) : App :=
  appendOutput content (withOutput a (output a) (outputBuffer a ++ content)).

(** [handleStderr(content)] *)
Definition handleStderr (content : jsstring) (a : App) : App :=
  appendOutput (js "<span class=" ++ [0x22] ++ js "text-red-500" ++ [0x22] ++ js ">"
                  ++ content ++ js "</span>") a.

(** [handleMessage(data)] *)
Definition handleMessage (data : jsstring) (a : App) : App :=
  match split colon data with
  | type :: contentParts =>
      let content := join [colon] contentParts in
      if Provisioner.jsEq type (js "stdout") then handleStdout content a
      else if Provisioner.jsEq type (js "stderr") then handleStderr content a
      else a
  | [] => a
  end.

Inductive Direction := Up | Down.

Definition indexZ (i : option nat) : Z :=
  match i with
  | None => (-1)%Z
  | Some n => Z.of_nat n
  end.

Definition ofIndexZ (z : Z) : option nat :=
  if (z <? 0)%Z then None else Some (Z.to_nat z).

(** The last statement of both variants of [navigateHistory]:
    [None] is the [TypeError] of reading [.query] of [undefined]. *)
Definition recall (a : App) (index : Z) : option App :=
  let text :=
    if (index =? -1)%Z then Some []
    else if (index <? 0)%Z then None
    else match nth_error (previousCommands a) (Z.to_nat index) with
         | Some c => Some (query c)
         | None => None
         end in
  match text with
  | Some t =>
      Some {| ws := ws a; currentQuery := t; output := output a;
              previousCommands := previousCommands a; loading := loading a;
              commandIndex := ofIndexZ index; startTime := startTime a;
              outputBuffer := outputBuffer a |}
  | None => None
  end.

(** [navigateHistory] of the client with [Math.max] and [Math.min]. *)
Definition navigateHistory (direction : Direction) (a : App) : option App :=
  let index := (indexZ (commandIndex a)
                + match direction with Up => 1 | Down => -1 end)%Z in
  let index := Z.max (-1)
                     (Z.min index (Z.of_nat (List.length (previousCommands a)) - 1)) in
  recall a index.

(** [navigateHistory] of the clients with the two tests. *)
Definition navigateHistoryTests (direction : Direction) (a : App) : option App :=
  let index := indexZ (commandIndex a) in
  let index :=
    match direction with
    | Up => if (index <? Z.of_nat (List.length (previousCommands a)) - 1)%Z
            then (index + 1)%Z else index
    | Down => if (-1 <? index)%Z then (index - 1)%Z else index
    end in
  recall a index.

End ClientView.

(** [handleEnterKey(event)]: [shiftKey] and, of [event.target], the
    selection and the value; the cursor move it schedules is left to
    the page.  The result is the new state and the frame sent, if
    any. *)
Definition handleEnterKey (shiftKey : bool) (selectionStart selectionEnd : nat)
           (value : jsstring) (now : N) (a : Client.App)
  : Client.App * option jsstring :=
  if negb shiftKey && Client.isValidQuery a then Client.sendQuery now a
  else
    ({| Client.ws := Client.ws a;
        Client.currentQuery :=
          firstn selectionStart value ++ Supervisor.LF ++ skipn selectionEnd value;
        Client.output := Client.output a;
        Client.previousCommands := Client.previousCommands a;
        Client.loading := Client.loading a;
        Client.commandIndex := Client.commandIndex a;
        Client.startTime := Client.startTime a;
        Client.outputBuffer := Client.outputBuffer a |},
     None).

(** The text field after the user has typed [text] at its end. *)
Definition typeAtEnd (text : jsstring) (a : Client.App) : Client.App :=
  {| Client.ws := Client.ws a;
     Client.currentQuery := Client.currentQuery a ++ text;
     Client.output := Client.output a;
     Client.previousCommands := Client.previousCommands a;
     Client.loading := Client.loading a;
     Client.commandIndex := Client.commandIndex a;
     Client.startTime := Client.startTime a;
     Client.outputBuffer := Client.outputBuffer a |}.

(** The parameter field of the API tester page:
    [params.value.split(',').map(p => p.trim()).filter(p => p !== '')]. *)
Definition paramArray (params : jsstring) : list jsstring :=
  filter (fun p => negb (Provisioner.jsEq p []))
         (List.map trim (ClientView.split 0x2C params)).

(** An SQL string literal read from behind its opening quote: the text
    up to the closing quote, with each doubled quote read as one, and
    what follows the closing quote. *)
Fixpoint readLiteral (s : jsstring) : option (jsstring * jsstring) :=
  match s with
  | [] => None
  | c :: s' =>
      if c =? 0x27 then
        match s' with
        | d :: s'' =>
            if d =? 0x27
            then match readLiteral s'' with
                 | Some (text, rest) => Some (0x27 :: text, rest)
                 | None => None
                 end
            else Some ([], s')
        | [] => Some ([], [])
        end
      else match readLiteral s' with
           | Some (text, rest) => Some (c :: text, rest)
           | None => None
           end
  end.

Definition isHexDigit (c : codeunit) : bool :=
  ((0x30 <=? c) && (c <=? 0x39)) || ((0x61 <=? c) && (c <=? 0x66)).

(** The double quote. *)
Definition DQ : jsstring := [0x22].

(** A request body whose payload is the JSON text of an update of two
    columns, [name] and [email]. *)
Definition twoColumns : RequestBody :=
  {| payload := js "{" ++ DQ ++ js "name" ++ DQ ++ js ": " ++ DQ ++ js "Ann" ++ DQ
                  ++ js ", " ++ DQ ++ js "email" ++ DQ ++ js ": " ++ DQ ++ js "a@x.org" ++ DQ
                  ++ js "}" |}.

(* ================================================================== *)
(** * Properties *)
(* ================================================================== *)


(** ** The read loops *)

Section ReadLoop.

Variable stop : jsstring -> bool.

(** The loop reads a prefix [taken] of the chunks, accumulates exactly
    their concatenation, never stops early, and leaves the rest of the
    stream as it was. *)
Lemma readLoop_spec (cs : list jsstring) (e : StreamEnd) :
  forall acc, exists taken rest exit,
    cs = taken ++ rest /\
    readLoop stop acc cs e
      = (exit, acc ++ List.concat taken, {| chunks := rest; final := e |}) /\
    (forall k, (0 < k < List.length taken)%nat ->
               stop (acc ++ List.concat (firstn k taken)) = false) /\
    match exit with
    | Break => taken <> [] /\ stop (acc ++ List.concat taken) = true
    | Done => rest = [] /\ e = Closed
    | Stuck => rest = [] /\ e = Silent
    end.
Proof.
  induction cs as [|v cs IH]; intros acc.
  - exists [], []. destruct e.
    + exists Done. simpl. rewrite app_nil_r. repeat split; auto. intros k Hk; simpl in Hk; lia.
    + exists Stuck. simpl. rewrite app_nil_r. repeat split; auto. intros k Hk; simpl in Hk; lia.
  - simpl. destruct (stop (acc ++ v)) eqn:Hs.
    + exists [v], cs, Break. simpl. rewrite app_nil_r.
      repeat split; auto; try discriminate.
      intros k Hk; simpl in Hk; lia.
    + destruct (IH (acc ++ v)) as (taken & rest & exit & Hcs & Hrun & Hclean & Hexit).
      exists (v :: taken), rest, exit. simpl.
      rewrite Hrun, Hcs, <- app_assoc. repeat split; auto.
      * intros k Hk. destruct k as [|k]; [lia|]. simpl.
        destruct k as [|k].
        -- simpl. rewrite app_nil_r. exact Hs.
        -- rewrite app_assoc. apply Hclean. simpl in Hk. lia.
      * destruct exit; auto. destruct Hexit as [_ Hstop].
        split; [discriminate | now rewrite app_assoc].
Qed.

(** The loop leaves on its test as soon as some read makes the
    accumulated text pass it. *)
Lemma readLoop_breaks (cs : list jsstring) (e : StreamEnd) :
  forall acc k, (0 < k <= List.length cs)%nat ->
    stop (acc ++ List.concat (firstn k cs)) = true ->
    fst (fst (readLoop stop acc cs e)) = Break.
Proof.
  induction cs as [|v cs IH]; intros acc k Hk Hstop.
  - simpl in Hk. lia.
  - simpl. destruct (stop (acc ++ v)) eqn:Hs; [reflexivity|].
    destruct k as [|k]; [lia|]. destruct k as [|k].
    + simpl in Hstop. rewrite app_nil_r in Hstop. congruence.
    + apply (IH (acc ++ v) (S k)).
      * simpl in Hk. lia.
      * rewrite <- app_assoc. exact Hstop.
Qed.

End ReadLoop.

(** ** The completion detector *)

Lemma onRead_left (st : Detector.State) (r : Detector.Read) :
  (forall out, st <> Detector.Awaiting out) -> Detector.onRead st r = st.
Proof.
  destruct st; intros H; try reflexivity. exfalso. now apply (H out).
Qed.

Lemma countSignals_left (rs : list Detector.Read) :
  forall st, (forall out, st <> Detector.Awaiting out) ->
             Detector.countSignals st rs = 0%nat.
Proof.
  induction rs as [|r rs IH]; intros st H; [reflexivity|].
  cbn [Detector.countSignals]. unfold Detector.signals.
  rewrite (onRead_left st r H), (IH st H).
  destruct st; try reflexivity. exfalso. now apply (H out).
Qed.

Lemma countSignals_le_1 (rs : list Detector.Read) :
  forall st, (Detector.countSignals st rs <= 1)%nat.
Proof.
  induction rs as [|r rs IH]; intros st; simpl; [lia|].
  destruct (Detector.signals st r) eqn:Hsig.
  - unfold Detector.signals in Hsig.
    destruct st; try discriminate.
    destruct (Detector.onRead (Detector.Awaiting out) r) eqn:Hon; try discriminate.
    rewrite countSignals_left; [lia|]. intros o; discriminate.
  - specialize (IH (Detector.onRead st r)). lia.
Qed.

(** The one-read-at-a-time detector is the stdout loop. *)
Lemma detector_run_readLoop (cs : list jsstring) (e : StreamEnd) :
  forall acc,
    Detector.run (Detector.Awaiting acc)
                 (List.map Detector.Value cs
                    ++ match e with Closed => [Detector.EndOfStream] | Silent => [] end)
    = match readLoop (fun out => includes out marker) acc cs e with
      | (Break, out, _) => Detector.Matched out
      | (Done, out, _) => Detector.Ended out
      | (Stuck, out, _) => Detector.Awaiting out
      end.
Proof.
  induction cs as [|v cs IH]; intros acc.
  - destruct e; reflexivity.
  - simpl. destruct (includes (acc ++ v) marker) eqn:Hm.
    + unfold Detector.run.
      assert (H : forall rs st, (forall o, st <> Detector.Awaiting o) ->
                                fold_left Detector.onRead rs st = st).
      { induction rs as [|r rs IHr]; intros st Hst; [reflexivity|].
        simpl. rewrite (onRead_left st r Hst). now apply IHr. }
      apply H. intros o; discriminate.
    + apply IH.
Qed.


(** ** [runCmd]: the diagnostic path *)

Lemma write_streams (text : jsstring) (p p1 : Proc) :
  write text p = Some p1 ->
  stdin p1 = stdin p ++ [text] /\ stdout p1 = stdout p /\ stderr p1 = stderr p.
Proof.
  unfold write. destruct (accepts p) as [[|k]|]; intros H; inversion H; subst; simpl; auto.
Qed.

Lemma includes_nil_false (p : jsstring) : p <> [] -> includes [] p = false.
Proof. destruct p; [congruence | reflexivity]. Qed.

(** C1, as stated, fails: with diagnostic output waiting and no marker
    on stdout, [runCmd] stays in its stdout loop; the diagnostic chunk
    is never read and the call never settles. *)
Lemma diagnostic_does_not_end_wait :
  runCmd (js "SELECT * FROM nope;") failingSelect
  = (Pending,
     {| stdin := [js "SELECT * FROM nope;" ++ LF]; accepts := None;
        stdout := {| chunks := []; final := Silent |};
        stderr := stderr failingSelect |})
  /\ chunks (stderr failingSelect) <> []
  /\ fst (runCmd (js "SELEC 1;") silentFailure) = Pending
  /\ stderr (snd (runCmd (js "SELEC 1;") silentFailure)) = stderr silentFailure.
Proof.
  repeat split; try (vm_compute; reflexivity). vm_compute. discriminate.
Qed.

(** When the primary wait is over and the diagnostic channel has ended
    without data, the command resolves with the trimmed primary text. *)
Lemma runCmd_resolves (cmd : jsstring) (p p1 : Proc) :
  write (cmd ++ LF) p = Some p1 ->
  fst (fst (readStdout (stdout p))) <> Stuck ->
  stderr p = {| chunks := []; final := Closed |} ->
  fst (runCmd cmd p) = Resolved (trim (snd (fst (readStdout (stdout p))))).
Proof.
  intros Hw Hout Herr. unfold runCmd. rewrite Hw.
  destruct (write_streams _ _ _ Hw) as (_ & Hso & Hse).
  unfold awaitCmd. rewrite Hso, Hse, Herr.
  destruct (readStdout (stdout p)) as [[exit out] so]. simpl in *.
  destruct exit; try congruence; reflexivity.
Qed.

(** A read loop whose test fails on the empty text, seen from outside:
    what it has read, how it is left, and what decides that. *)
Lemma readLoop_exits (stop : jsstring -> bool) (cs : list jsstring) (e : StreamEnd) :
  stop [] = false ->
  exists taken rest exit,
    cs = taken ++ rest
    /\ readLoop stop [] cs e
       = (exit, List.concat taken, {| chunks := rest; final := e |})
    /\ (forall k, (k < List.length taken)%nat ->
                  stop (List.concat (firstn k taken)) = false)
    /\ (exit = Break <-> stop (List.concat taken) = true)
    /\ (exit = Done -> rest = [] /\ e = Closed)
    /\ (exit = Stuck -> rest = [] /\ e = Silent)
    /\ (e = Closed -> exit <> Stuck)
    /\ (forall k, (k <= List.length cs)%nat ->
                  stop (List.concat (firstn k cs)) = true -> exit = Break).
Proof.
  intros H0.
  destruct (readLoop_spec stop cs e []) as (taken & rest & exit & Hcs & Hrun & Hclean & Hexit).
  cbn [app] in Hrun, Hclean, Hexit.
  assert (Hbreaks : forall k, (k <= List.length cs)%nat ->
                      stop (List.concat (firstn k cs)) = true -> exit = Break).
  { intros k Hk Hstop. destruct k as [|k]; [cbn in Hstop; congruence|].
    pose proof (readLoop_breaks stop cs e [] (S k)) as Hb.
    rewrite Hrun in Hb. apply Hb; [lia | exact Hstop]. }
  exists taken, rest, exit.
  split; [exact Hcs|]. split; [exact Hrun|]. split; [|split; [|split; [|split; [|split]]]].
  - intros k Hk. destruct k as [|k]; [exact H0|]. apply Hclean. lia.
  - split.
    + intros ->. now destruct Hexit.
    + intros Hstop. apply (Hbreaks (List.length taken)).
      * rewrite Hcs, length_app. lia.
      * rewrite Hcs, firstn_app, firstn_all, Nat.sub_diag. cbn [firstn].
        now rewrite app_nil_r.
  - intros ->. exact Hexit.
  - intros ->. exact Hexit.
  - intros He ->. destruct Hexit as [_ Hs]. congruence.
  - exact Hbreaks.
Qed.

(** C1, amended.  [runCmd] leaves the diagnostic channel unread as
    long as its wait on the primary channel lasts: that wait is over
    exactly when stdout has ended or some read has made the accumulated
    primary text contain the marker, and until then the call is
    pending with stderr as it was, whatever stderr holds.  Once the
    wait is over, by the marker or without it, the stderr chunks are
    accumulated up to the first read after which the text holds a line
    break, or to the end of stderr; a text that is not empty ends the
    command with that text, trimmed, as its error, an empty one lets
    the command resolve, and a stderr that stays open before any line
    break leaves the call pending. *)
Theorem diagnostic_after_primary_wait (cmd : jsstring) (p p1 : Proc) :
  write (cmd ++ LF) p = Some p1 ->
  (fst (fst (readStdout (stdout p))) <> Stuck
   <-> final (stdout p) = Closed
       \/ exists k, (k <= List.length (chunks (stdout p)))%nat
                    /\ includes (List.concat (firstn k (chunks (stdout p)))) marker = true)
  /\ (fst (fst (readStdout (stdout p))) = Stuck ->
      runCmd cmd p
      = (Pending, {| stdin := stdin p ++ [cmd ++ LF]; accepts := accepts p1;
                     stdout := {| chunks := []; final := Silent |};
                     stderr := stderr p |}))
  /\ (fst (fst (readStdout (stdout p))) <> Stuck ->
      exists taken rest exit,
        chunks (stderr p) = taken ++ rest
        /\ readStderr (stderr p)
           = (exit, List.concat taken, {| chunks := rest; final := final (stderr p) |})
        /\ stderr (snd (runCmd cmd p)) = {| chunks := rest; final := final (stderr p) |}
        /\ (forall k, (k < List.length taken)%nat ->
                      includes (List.concat (firstn k taken)) LF = false)
        /\ (exit = Break <-> includes (List.concat taken) LF = true)
        /\ (exit = Done -> rest = [] /\ final (stderr p) = Closed)
        /\ (exit = Stuck -> rest = [] /\ final (stderr p) = Silent)
        /\ match exit with
           | Stuck => fst (runCmd cmd p) = Pending
           | _ =>
               match List.concat taken with
               | [] => fst (runCmd cmd p)
                       = Resolved (trim (snd (fst (readStdout (stdout p)))))
               | _ :: _ => fst (runCmd cmd p)
                           = Rejected (EngineError (trim (List.concat taken)))
               end
           end).
Proof.
  intros Hw.
  destruct (write_streams _ _ _ Hw) as (Hsi & Hso & Hse).
  assert (Hrun : runCmd cmd p = awaitCmd p1) by (unfold runCmd; now rewrite Hw).
  destruct (readLoop_exits (fun out => includes out marker) (chunks (stdout p))
                           (final (stdout p)) eq_refl)
    as (otaken & orest & oexit & Hocs & Horun & _ & _ & Hodone & Hostuck & Hoclosed & Hobreaks).
  fold (readStdout (stdout p)) in Horun.
  split; [|split].
  - rewrite Horun. cbn [fst]. split.
    + intros Hne. destruct oexit.
      * right. exists (List.length otaken). split.
        -- rewrite Hocs, length_app. lia.
        -- rewrite Hocs, firstn_app, firstn_all, Nat.sub_diag. cbn [firstn].
           rewrite app_nil_r.
           pose proof (readLoop_spec (fun out => includes out marker)
                         (chunks (stdout p)) (final (stdout p)) []) as Hs.
           destruct Hs as (t2 & r2 & e2 & _ & Hr2 & _ & He2).
           unfold readStdout in Horun. rewrite Horun in Hr2.
           inversion Hr2; subst e2. cbn [app] in He2. destruct He2 as [_ He2].
           now rewrite <- H1 in He2.
      * left. now apply Hodone.
      * congruence.
    + intros [Hc | (k & Hk & Hin)].
      * now apply Hoclosed.
      * rewrite (Hobreaks k Hk Hin). discriminate.
  - rewrite Horun. cbn [fst]. intros ->.
    destruct (Hostuck eq_refl) as [-> Hsil].
    rewrite Hrun. unfold awaitCmd. rewrite Hso, Horun, Hsil, Hsi, Hse. reflexivity.
  - rewrite Horun. cbn [fst snd]. intros Hne.
    destruct (readLoop_exits (fun err => includes err LF) (chunks (stderr p))
                             (final (stderr p)) eq_refl)
      as (taken & rest & exit & Hcs & Herun & Hclean & Hbreak & Hdone & Hstuck & _ & _).
    fold (readStderr (stderr p)) in Herun.
    exists taken, rest, exit.
    split; [exact Hcs|]. split; [exact Herun|].
    assert (Hawait : awaitCmd p1
                     = match exit with
                       | Stuck => (Pending,
                                   {| stdin := stdin p1; accepts := accepts p1;
                                      stdout := {| chunks := orest; final := final (stdout p) |};
                                      stderr := {| chunks := rest; final := final (stderr p) |} |})
                       | _ =>
                           let p' := {| stdin := stdin p1; accepts := accepts p1;
                                        stdout := {| chunks := orest; final := final (stdout p) |};
                                        stderr := {| chunks := rest; final := final (stderr p) |} |} in
                           match List.concat taken with
                           | [] => (Resolved (trim (List.concat otaken)), p')
                           | _ :: _ => (Rejected (EngineError (trim (List.concat taken))), p')
                           end
                       end).
    { unfold awaitCmd. rewrite Hso, Hse, Horun, Herun.
      destruct oexit; [| |congruence]; destruct exit; reflexivity. }
    rewrite Hrun, Hawait.
    split; [destruct exit; [destruct (List.concat taken)| destruct (List.concat taken)|]; reflexivity|].
    split; [exact Hclean|]. split; [exact Hbreak|]. split; [exact Hdone|].
    split; [exact Hstuck|].
    destruct exit; [destruct (List.concat taken)| destruct (List.concat taken)|]; reflexivity.
Qed.

(** Two processes.  On the first, stdout has ended without output
    and the error line arrives in two chunks: the command ends with the
    whole line as its error and the chunk behind it stays unread.  On
    the second, the error waits on stderr while stdout is open without
    the marker: the call is pending and stderr is as it was. *)
Lemma diagnostic_after_primary_wait_witness :
  let p := spawn None {| chunks := []; final := Closed |}
                 {| chunks := [js "Catalog Error: "; js "no table" ++ LF; js "later"];
                    final := Silent |} in
  (fst (runCmd (js "SELECT * FROM t;") p)
   = Rejected (EngineError (js "Catalog Error: no table"))
   /\ stderr (snd (runCmd (js "SELECT * FROM t;") p))
      = {| chunks := [js "later"]; final := Silent |})
  /\ runCmd (js "SELECT * FROM nope;") failingSelect
     = (Pending,
        {| stdin := stdin failingSelect ++ [js "SELECT * FROM nope;" ++ LF];
           accepts := None;
           stdout := {| chunks := []; final := Silent |};
           stderr := stderr failingSelect |}).
Proof.
  intros p. split.
  - destruct (proj2 (proj2 (diagnostic_after_primary_wait
                              (js "SELECT * FROM t;") p
                              {| stdin := [js "SELECT * FROM t;" ++ LF]; accepts := None;
                                 stdout := stdout p; stderr := stderr p |}
                              eq_refl)))
      as (taken & rest & exit & _ & Hread & Hse & _ & _ & _ & _ & Hres).
    + vm_compute. discriminate.
    + assert (E : readStderr (stderr p)
                  = (Break, js "Catalog Error: no table" ++ LF,
                     {| chunks := [js "later"]; final := Silent |}))
        by (vm_compute; reflexivity).
      rewrite E in Hread. inversion Hread as [[He Ht Hr]].
      rewrite <- He, <- Ht in Hres. rewrite <- Hr in Hse.
      split; [exact Hres | exact Hse].
  - apply (proj1 (proj2 (diagnostic_after_primary_wait
                           (js "SELECT * FROM nope;") failingSelect
                           {| stdin := [js "SELECT * FROM nope;" ++ LF]; accepts := None;
                              stdout := stdout failingSelect;
                              stderr := stderr failingSelect |}
                           eq_refl))).
    vm_compute. reflexivity.
Defined.

(** ** The handler of [POST /api/query]: history failures *)


Lemma writeTextFile_ok (path text : jsstring) (w : World) :
  canWriteFile w = true ->
  writeTextFile path text w
  = (Resolved tt, {| proc := proc w; canWriteFile := canWriteFile w;
                     readFile := readFile w;
                     textFiles := textFiles w ++ [(path, text)] |}).
Proof. intros H. unfold writeTextFile. now rewrite H. Qed.



(** ** The session bridge and its client *)

Lemma step_text_open (s : Bridge.Session) (data : jsstring) :
  Bridge.closed s = false ->
  Bridge.step s (Bridge.OnMessage (Bridge.Text data))
  = {| Bridge.stdin := Bridge.stdin s ++ [data ++ LF];
       Bridge.closed := false; Bridge.sent := Bridge.sent s |}.
Proof. intros H. simpl. rewrite H. reflexivity. Qed.

(** Without a close event, the process input is the text frames of the
    trace, each with its line feed, in order of arrival. *)
Lemma run_stdin (es : list Bridge.Event) :
  forall s, Bridge.closed s = false ->
            existsb Bridge.isClose es = false ->
            Bridge.stdin (Bridge.run s es)
            = Bridge.stdin s ++ List.map (fun d => d ++ LF) (Bridge.textFrames es)
            /\ Bridge.closed (Bridge.run s es) = false.
Proof.
  induction es as [|e es IH]; intros s Hs Hes.
  - simpl. now rewrite app_nil_r.
  - simpl in Hes. apply orb_false_iff in Hes. destruct Hes as [He Hes].
    unfold Bridge.run. simpl fold_left. fold (Bridge.run (Bridge.step s e) es).
    destruct e as [[data|data]| content | content |]; try discriminate He.
    + rewrite (step_text_open s data Hs).
      destruct (IH {| Bridge.stdin := Bridge.stdin s ++ [data ++ LF];
                      Bridge.closed := false; Bridge.sent := Bridge.sent s |}
                   eq_refl Hes) as [H1 H2].
      rewrite H1, H2. simpl. rewrite <- app_assoc. auto.
    + simpl Bridge.step. apply (IH s Hs Hes).
    + destruct (IH (Bridge.step s (Bridge.StdoutRead content)) Hs Hes) as [H1 H2].
      rewrite H1, H2. auto.
    + destruct (IH (Bridge.step s (Bridge.StderrRead content)) Hs Hes) as [H1 H2].
      rewrite H1, H2. auto.
Qed.

(** C2, as stated, fails: the frame [SELECT 1] neither starts with a
    dot nor ends with a semicolon once trimmed, and the bridge writes
    it to the process input. *)
Lemma unterminated_frame_is_written :
  (startsWith (trim (js "SELECT 1")) (js ".")
   || endsWith (trim (js "SELECT 1")) (js ";")) = false
  /\ Bridge.stdin (Bridge.step Bridge.handleWebSocket
                               (Bridge.OnMessage (Bridge.Text (js "SELECT 1"))))
     = [js "SELECT 1" ++ LF].
Proof. split; vm_compute; reflexivity. Qed.

(** C2, amended.  The bridge writes every text frame it receives to
    the process input, whatever its form; the test on the trimmed text
    is made by the client: [sendQuery] hands a frame to the socket if
    and only if the socket exists and the trimmed current text starts
    with a dot or ends with a semicolon, the frame is that text, and
    otherwise the text stays in the client and nothing reaches the
    process. *)
Theorem well_formedness_is_checked_by_client
        (s : Bridge.Session) (data : jsstring) (now : N) (a : Client.App) :
  Bridge.closed s = false ->
  Bridge.stdin (Bridge.step s (Bridge.OnMessage (Bridge.Text data)))
    = Bridge.stdin s ++ [data ++ LF]
  /\ (forall frame,
         snd (Client.sendQuery now a) = Some frame <->
         frame = Client.currentQuery a /\ Client.ws a = true /\
         (startsWith (trim (Client.currentQuery a)) (js ".")
          || endsWith (trim (Client.currentQuery a)) (js ";")) = true)
  /\ (snd (Client.sendQuery now a) = None ->
      Client.currentQuery (fst (Client.sendQuery now a)) = Client.currentQuery a
      /\ Client.submit now a s = s)
  /\ Bridge.stdin (Client.submit now a s)
     = Bridge.stdin s
         ++ (if (startsWith (trim (Client.currentQuery a)) (js ".")
                 || endsWith (trim (Client.currentQuery a)) (js ";"))
                && Client.ws a
             then [Client.currentQuery a ++ LF] else []).
Proof.
  intros Hs. split; [|split; [|split]].
  - rewrite (step_text_open s data Hs). reflexivity.
  - intros frame. unfold Client.sendQuery, Client.isValidQuery.
    destruct (startsWith (trim (Client.currentQuery a)) (js ".")
              || endsWith (trim (Client.currentQuery a)) (js ";")) eqn:Hv;
      destruct (Client.ws a) eqn:Hws; simpl; split;
        try (intros H; inversion H; subst; auto; fail);
        try (intros (H1 & H2 & H3); congruence).
  - unfold Client.submit. intros H. rewrite H. split; [|reflexivity].
    unfold Client.sendQuery in *.
    destruct (Client.isValidQuery a && Client.ws a); [discriminate H | reflexivity].
  - unfold Client.submit, Client.sendQuery, Client.isValidQuery.
    destruct ((startsWith (trim (Client.currentQuery a)) (js ".")
               || endsWith (trim (Client.currentQuery a)) (js ";"))
              && Client.ws a) eqn:Hv.
    + cbn [snd]. rewrite (step_text_open s _ Hs). reflexivity.
    + cbn [snd]. now rewrite app_nil_r.
Qed.

(** Scenario C: [SELECT 1] stays in the client, [SELECT 1;] is sent. *)
Lemma well_formedness_is_checked_by_client_witness :
  Bridge.stdin (Client.submit 5 (typing "SELECT 1") Bridge.handleWebSocket) = []
  /\ Bridge.stdin (Client.submit 5 (typing "SELECT 1;") Bridge.handleWebSocket)
     = [js "SELECT 1;" ++ LF].
Proof.
  split.
  - destruct (well_formedness_is_checked_by_client
                Bridge.handleWebSocket [] 5 (typing "SELECT 1") eq_refl)
      as (_ & _ & _ & H).
    rewrite H. vm_compute. reflexivity.
  - destruct (well_formedness_is_checked_by_client
                Bridge.handleWebSocket [] 5 (typing "SELECT 1;") eq_refl)
      as (_ & _ & _ & H).
    rewrite H. vm_compute. reflexivity.
Defined.

(** C5, as stated, fails: two well-formed frames arrive one after the
    other, no output has been read in between, and both are on the
    process input. *)
Lemma frames_are_pipelined :
  let trace := [Bridge.OnMessage (Bridge.Text (js "SELECT 1;"));
                Bridge.OnMessage (Bridge.Text (js "SELECT 2;"))] in
  existsb Bridge.isOutput trace = false
  /\ Bridge.stdin (Bridge.run Bridge.handleWebSocket trace)
     = [js "SELECT 1;" ++ LF; js "SELECT 2;" ++ LF].
Proof. split; vm_compute; reflexivity. Qed.

(** C5, amended.  While the connection is open the bridge writes each
    text frame as it arrives, exactly that text with one line feed
    appended; the process input is the sequence of these texts in
    arrival order and holds nothing else.  Output events do not gate
    the writes: a frame is written whether or not the output of the
    previous one has been read. *)
Theorem frames_are_forwarded_verbatim (es : list Bridge.Event) :
  existsb Bridge.isClose es = false ->
  Bridge.stdin (Bridge.run Bridge.handleWebSocket es)
    = List.map (fun data => data ++ LF) (Bridge.textFrames es)
  /\ forall data,
       Bridge.stdin (Bridge.run Bridge.handleWebSocket
                                (es ++ [Bridge.OnMessage (Bridge.Text data)]))
       = Bridge.stdin (Bridge.run Bridge.handleWebSocket es) ++ [data ++ LF].
Proof.
  intros Hes.
  destruct (run_stdin es Bridge.handleWebSocket eq_refl Hes) as [H1 H2].
  split; [exact H1|].
  intros data. unfold Bridge.run. rewrite fold_left_app. cbn [fold_left].
  change (fold_left Bridge.step es Bridge.handleWebSocket)
    with (Bridge.run Bridge.handleWebSocket es).
  rewrite (step_text_open _ data H2). reflexivity.
Qed.

Lemma frames_are_forwarded_verbatim_witness :
  Bridge.stdin (Bridge.run Bridge.handleWebSocket
                           [Bridge.OnMessage (Bridge.Text (js "SELECT 1;"));
                            Bridge.StdoutRead (js "[{1:1}]");
                            Bridge.OnMessage (Bridge.Binary [1; 2]);
                            Bridge.OnMessage (Bridge.Text (js ".tables"))])
  = [js "SELECT 1;" ++ LF; js ".tables" ++ LF].
Proof.
  exact (proj1 (frames_are_forwarded_verbatim
                  [Bridge.OnMessage (Bridge.Text (js "SELECT 1;"));
                   Bridge.StdoutRead (js "[{1:1}]");
                   Bridge.OnMessage (Bridge.Binary [1; 2]);
                   Bridge.OnMessage (Bridge.Text (js ".tables"))]
                  eq_refl)).
Defined.

(** ** Initialisation of a spawned process *)

Lemma awaitCmd_stdin (p : Proc) :
  stdin (snd (awaitCmd p)) = stdin p /\ accepts (snd (awaitCmd p)) = accepts p.
Proof.
  unfold awaitCmd.
  destruct (readStdout (stdout p)) as [[[] out] so];
    try (destruct (readStderr (stderr p)) as [[[] err] se]; try destruct err);
    simpl; auto.
Qed.

(** A call of [runCmd] adds its own line to the process input, after
    everything written before, or nothing when the pipe rejects it. *)
Lemma runCmd_stdin (cmd : jsstring) (p : Proc) :
  stdin (snd (runCmd cmd p))
  = stdin p ++ match accepts p with Some O => [] | _ => [cmd ++ LF] end.
Proof.
  unfold runCmd. destruct (write (cmd ++ LF) p) as [p1|] eqn:Hw.
  - destruct (write_streams _ _ _ Hw) as (H1 & _ & _).
    rewrite (proj1 (awaitCmd_stdin p1)), H1.
    unfold write in Hw. destruct (accepts p) as [[|k]|]; try discriminate; reflexivity.
  - unfold write in Hw. destruct (accepts p) as [[|k]|]; try discriminate.
    simpl. now rewrite app_nil_r.
Qed.

(** C7, as stated, fails: the process spawned for a WebSocket session
    gets the client's first frame as its first input; neither the
    timing switch nor the history table precedes it. *)
Lemma websocket_process_is_not_initialised :
  Bridge.stdin Bridge.handleWebSocket = []
  /\ Bridge.stdin (Bridge.run Bridge.handleWebSocket
                              [Bridge.OnMessage (Bridge.Text (js "SELECT 1;"))])
     = [js "SELECT 1;" ++ LF]
  /\ existsb (fun text => includes text (js ".timer on"))
             (Bridge.stdin (Bridge.run Bridge.handleWebSocket
                                       [Bridge.OnMessage (Bridge.Text (js "SELECT 1;"))]))
     = false.
Proof. repeat split; vm_compute; reflexivity. Qed.

(** C7, amended.  For a process spawned by the [DuckDB] constructor,
    the first lines on its input are [.echo on], [.timer on] and the
    [CREATE TABLE IF NOT EXISTS _query_history] statement, in this
    order and as far as the pipe takes them, written before the
    constructor returns; whatever [runCmd] writes later comes after
    them.  The process spawned by [handleWebSocket] has nothing written
    to it at spawn. *)
Theorem constructor_initialises_process
        (acc : option nat) (out err : Stream) :
  stdin (construct acc out err)
    = firstn (match acc with None => 3 | Some n => n end) initCommands
  /\ (forall cmd,
         stdin (snd (runCmd cmd (construct acc out err)))
         = stdin (construct acc out err)
             ++ match accepts (construct acc out err) with
                | Some O => []
                | _ => [cmd ++ LF]
                end)
  /\ includes createHistoryTable (js "CREATE TABLE IF NOT EXISTS _query_history") = true
  /\ Bridge.stdin Bridge.handleWebSocket = [].
Proof.
  split; [|split; [|split]].
  - destruct acc as [[|[|[|[|n]]]]|]; reflexivity.
  - intros cmd. apply runCmd_stdin.
  - vm_compute. reflexivity.
  - reflexivity.
Qed.

(** ** The binary provisioner *)

(** C8, as stated, fails: the search path is consulted first; with a
    binary at both places the one on the search path is returned and
    the cached location is not even examined. *)
Lemma search_path_is_checked_first :
  candidates bothInstalled = [js "/usr/bin/duckdb"; js "/tmp/duckdb"]
  /\ getDuckDB bothInstalled
     = (Path (js "/usr/bin/duckdb"), bothInstalled,
        [RunWhich; Stat (js "/usr/bin/duckdb")]).
Proof. split; vm_compute; reflexivity. Qed.

Lemma jsEq_refl (a : jsstring) : jsEq a a = true.
Proof. unfold jsEq. destruct (list_eq_dec N.eq_dec a a); congruence. Qed.

Lemma fileExists_in (h : Host) (path : jsstring) :
  fileExists h path = true <-> In path (files h).
Proof.
  unfold fileExists. rewrite existsb_exists. split.
  - intros (x & Hin & Heq). unfold jsEq in Heq.
    destruct (list_eq_dec N.eq_dec path x); [now subst | discriminate].
  - intros Hin. exists path. split; [exact Hin | apply jsEq_refl].
Qed.

Lemma getDuckDB_cases (h : Host) :
  getDuckDB h
  = (if fileExists h (whichPath h)
     then (Path (whichPath h), h, [RunWhich; Stat (whichPath h)])
     else if fileExists h cachePath
          then (Path cachePath, h,
                [RunWhich; Stat (whichPath h); Stat cachePath])
          else (if curl_ok h then Path cachePath else InstallationError,
                install h,
                [RunWhich; Stat (whichPath h); Stat cachePath;
                 Download (downloadUrl h)])).
Proof.
  unfold getDuckDB, candidates. cbn [firstExisting].
  destruct (fileExists h (whichPath h)); [reflexivity|].
  destruct (fileExists h cachePath); reflexivity.
Qed.

(** With a binary at one of the two places the call is a pure lookup. *)
Lemma getDuckDB_found (h : Host) :
  fileExists h (whichPath h) || fileExists h cachePath = true ->
  downloads (snd (getDuckDB h)) = 0%nat
  /\ snd (fst (getDuckDB h)) = h
  /\ exists path, fst (fst (getDuckDB h)) = Path path.
Proof.
  intros H. rewrite getDuckDB_cases.
  destruct (fileExists h (whichPath h)).
  - simpl. repeat split. now exists (whichPath h).
  - destruct (fileExists h cachePath); [|discriminate H].
    simpl. repeat split. now exists cachePath.
Qed.

Lemma install_caches (h : Host) :
  curl_ok h = true -> In (js "duckdb") (archive h) ->
  fileExists (install h) cachePath = true.
Proof.
  intros Hok Hin. apply fileExists_in. unfold install. rewrite Hok. simpl.
  apply in_or_app. right.
  change cachePath with ((fun e => js "/tmp/" ++ e) (js "duckdb")).
  apply in_map. exact Hin.
Qed.

(** C8, amended.  [getDuckDB] examines first the executable that
    [which duckdb] reports and then the cached location [/tmp/duckdb],
    stopping at the first that exists; it downloads only if neither
    exists.  After an install that succeeded and unpacked [duckdb], a
    second call downloads nothing and returns a path. *)
Theorem provisioner_order_and_idempotence (h : Host) :
  getDuckDB h
  = (if fileExists h (whichPath h)
     then (Path (whichPath h), h, [RunWhich; Stat (whichPath h)])
     else if fileExists h cachePath
          then (Path cachePath, h,
                [RunWhich; Stat (whichPath h); Stat cachePath])
          else (if curl_ok h then Path cachePath else InstallationError,
                install h,
                [RunWhich; Stat (whichPath h); Stat cachePath;
                 Download (downloadUrl h)]))
  /\ (downloads (snd (getDuckDB h)) = 0%nat
      <-> fileExists h (whichPath h) || fileExists h cachePath = true)
  /\ (curl_ok h = true -> In (js "duckdb") (archive h) ->
      let h' := snd (fst (getDuckDB h)) in
      downloads (snd (getDuckDB h')) = 0%nat
      /\ snd (fst (getDuckDB h')) = h'
      /\ exists path, fst (fst (getDuckDB h')) = Path path).
Proof.
  split; [apply getDuckDB_cases|]. split.
  - rewrite getDuckDB_cases.
    destruct (fileExists h (whichPath h)); [simpl; tauto|].
    destruct (fileExists h cachePath); simpl; [tauto|].
    split; discriminate.
  - intros Hok Harch h'. apply getDuckDB_found.
    subst h'. rewrite getDuckDB_cases.
    destruct (fileExists h (whichPath h)) eqn:E1; [simpl; now rewrite E1|].
    destruct (fileExists h cachePath) eqn:E2.
    + simpl. rewrite E2. apply orb_true_r.
    + simpl. rewrite (install_caches h Hok Harch). apply orb_true_r.
Qed.

Lemma provisioner_order_and_idempotence_witness :
  let fresh := {| which := Some []; files := [];
                  build_os := js "linux"; build_arch := js "x86_64";
                  curl_ok := true; archive := [js "duckdb"] |} in
  snd (getDuckDB fresh)
    = [RunWhich; Stat []; Stat (js "/tmp/duckdb");
       Download (js "https://github.com/duckdb/duckdb/releases/latest/download/duckdb_cli-linux-amd64.zip")]
  /\ downloads (snd (getDuckDB (snd (fst (getDuckDB fresh))))) = 0%nat.
Proof.
  intros fresh. split.
  - vm_compute. reflexivity.
  - destruct (provisioner_order_and_idempotence fresh) as (_ & _ & H).
    apply H.
    + reflexivity.
    + left. reflexivity.
Defined.

(** ** [query]: the placeholder substitution *)

Lemma getSubstitution_literal (m b a : jsstring) (r : jsstring) :
  literalRepl r = true -> getSubstitution m b a r = r.
Proof.
  induction r as [|c rest IH]; [reflexivity|].
  intros H. cbn [literalRepl] in H. apply andb_true_iff in H. destruct H as [Hc Hrest].
  cbn [getSubstitution]. destruct (c =? 0x24) eqn:Ec.
  - simpl in Hc. destruct rest as [|d rest']; [reflexivity|].
    apply negb_true_iff in Hc.
    apply orb_false_iff in Hc. destruct Hc as [Hc H4].
    apply orb_false_iff in Hc. destruct Hc as [Hc H3].
    apply orb_false_iff in Hc. destruct Hc as [H1 H2].
    rewrite H1, H2, H3, H4. now rewrite (IH Hrest).
  - now rewrite (IH Hrest).
Qed.

Lemma digits_are_digits (u : Decimal.uint) : forallb isDigit (digits u) = true.
Proof. induction u; simpl; auto. Qed.

Lemma countChar_app (c : codeunit) (s t : jsstring) :
  countChar c (s ++ t) = (countChar c s + countChar c t)%nat.
Proof. unfold countChar. now rewrite filter_app, length_app. Qed.

Lemma countChar_cons (c d : codeunit) (s : jsstring) :
  countChar c (d :: s) = if c =? d then S (countChar c s) else countChar c s.
Proof. unfold countChar. cbn [filter]. destruct (c =? d); reflexivity. Qed.

Lemma countChar_digits (ds : jsstring) :
  forallb isDigit ds = true -> countChar QM ds = 0%nat.
Proof.
  induction ds as [|d ds IH]; [reflexivity|].
  cbn [forallb]. intros H. apply andb_true_iff in H. destruct H as [Hd Hds].
  rewrite countChar_cons.
  destruct (QM =? d) eqn:E.
  - apply N.eqb_eq in E. subst d. discriminate Hd.
  - now apply IH.
Qed.

Lemma literalRepl_digits_app (ds x : jsstring) :
  forallb isDigit ds = true -> literalRepl x = true -> literalRepl (ds ++ x) = true.
Proof.
  induction ds as [|d ds IH]; intros Hds Hx; [exact Hx|].
  simpl in Hds. apply andb_true_iff in Hds. destruct Hds as [Hd Hds].
  cbn [app literalRepl]. rewrite (IH Hds Hx).
  assert (E : (d =? 0x24) = false).
  { apply N.eqb_neq. intros ->. discriminate Hd. }
  rewrite E. reflexivity.
Qed.

(** After a [$] of the placeholder list comes a digit, or the comma of
    the separator: never a pattern character. *)
Lemma dollar_digits_literal (ds x : jsstring) :
  forallb isDigit ds = true ->
  literalRepl x = true ->
  match x with [] => True | c :: _ => c = 0x2C end ->
  literalRepl (0x24 :: ds ++ x) = true.
Proof.
  intros Hds Hx Hhead. cbn [literalRepl].
  rewrite (literalRepl_digits_app ds x Hds Hx), andb_true_r.
  destruct ds as [|d ds'].
  - destruct x as [|c x']; [reflexivity|]. subst c. reflexivity.
  - simpl in Hds. apply andb_true_iff in Hds. destruct Hds as [Hd _].
    cbn [app]. simpl.
    unfold isDigit in Hd. apply andb_true_iff in Hd. destruct Hd as [H1 H2].
    apply N.leb_le in H1. apply N.leb_le in H2.
    destruct (d =? 36) eqn:E1; [apply N.eqb_eq in E1; lia|].
    destruct (d =? 38) eqn:E2; [apply N.eqb_eq in E2; lia|].
    destruct (d =? 96) eqn:E3; [apply N.eqb_eq in E3; lia|].
    destruct (d =? 39) eqn:E4; [apply N.eqb_eq in E4; lia|].
    reflexivity.
Qed.

Lemma join_cons2 (sep p q : jsstring) (rest : list jsstring) :
  join sep (p :: q :: rest) = p ++ sep ++ join sep (q :: rest).
Proof. reflexivity. Qed.

Lemma placeholders_shape (parts : list jsstring) :
  Forall isPlaceholder parts ->
  literalRepl (join (js ", ") parts) = true
  /\ countChar QM (join (js ", ") parts) = 0%nat.
Proof.
  induction parts as [|p parts IH]; intros H; [split; reflexivity|].
  inversion H as [|? ? (ds & -> & Hd) Hrest]; subst.
  destruct parts as [|q parts'].
  - cbn [join]. split.
    + rewrite <- (app_nil_r ds). apply dollar_digits_literal; auto.
    + rewrite countChar_cons. cbn [N.eqb QM]. now apply countChar_digits.
  - destruct (IH Hrest) as [IH1 IH2]. rewrite join_cons2.
    remember (join (js ", ") (q :: parts')) as R.
    split.
    + change ((0x24 :: ds) ++ js ", " ++ R) with (0x24 :: ds ++ 0x2C :: 0x20 :: R).
      apply dollar_digits_literal; auto.
    + change ((0x24 :: ds) ++ js ", " ++ R) with ([0x24] ++ ds ++ [0x2C; 0x20] ++ R).
      rewrite !countChar_app, (countChar_digits _ Hd), IH2. reflexivity.
Qed.

Lemma paramPlaceholders_shape (params : list jsstring) :
  literalRepl (paramPlaceholders params) = true
  /\ countChar QM (paramPlaceholders params) = 0%nat.
Proof.
  apply placeholders_shape. apply Forall_forall. intros p Hin.
  apply in_map_iff in Hin. destruct Hin as (i & <- & _).
  exists (numberToString (i + 1)). split; [reflexivity|].
  apply digits_are_digits.
Qed.

(** The first question mark splits the text. *)
Lemma splitFirst_QM (s : jsstring) :
  match splitFirst s [QM] with
  | Some (before, after) =>
      s = before ++ QM :: after /\ countChar QM before = 0%nat
  | None => countChar QM s = 0%nat
  end.
Proof.
  induction s as [|d s IH]; [reflexivity|].
  cbn [splitFirst startsWith List.length skipn].
  destruct (QM =? d) eqn:E.
  - apply N.eqb_eq in E. subst d. cbn [andb app]. auto.
  - cbn [andb]. destruct (splitFirst s [QM]) as [[before after]|].
    + destruct IH as [Hs Hc]. split; [now rewrite Hs|].
      now rewrite countChar_cons, E.
    + now rewrite countChar_cons, E.
Qed.

Lemma splitFirst_QM_at (pre post : jsstring) :
  countChar QM pre = 0%nat ->
  splitFirst (pre ++ QM :: post) [QM] = Some (pre, post).
Proof.
  induction pre as [|d pre IH]; intros H.
  - reflexivity.
  - rewrite countChar_cons in H.
    destruct (QM =? d) eqn:E; [discriminate H|].
    cbn [app splitFirst startsWith]. rewrite E. cbn [andb].
    now rewrite (IH H).
Qed.

Lemma countChar_QM_cons (s : jsstring) :
  countChar QM (QM :: s) = S (countChar QM s).
Proof. reflexivity. Qed.

Lemma fullSql_count (sql : jsstring) (params : list jsstring) :
  countChar QM (fullSql sql params) = pred (countChar QM sql).
Proof.
  unfold fullSql, replace. change (js "?") with [QM].
  destruct (paramPlaceholders_shape params) as [Hlit Hcnt].
  pose proof (splitFirst_QM sql) as H.
  destruct (splitFirst sql [QM]) as [[before after]|].
  - destruct H as [Hs Hb]. rewrite (getSubstitution_literal _ _ _ _ Hlit).
    rewrite Hs, !countChar_app, Hcnt, Hb.
    change (QM :: after) with ([QM] ++ after). rewrite countChar_app. reflexivity.
  - now rewrite H.
Qed.

(** The first question mark, and only it, is replaced by the
    placeholder list. *)
Lemma fullSql_first (pre post : jsstring) (params : list jsstring) :
  countChar QM pre = 0%nat ->
  fullSql (pre ++ QM :: post) params = pre ++ paramPlaceholders params ++ post.
Proof.
  intros Hpre. destruct (paramPlaceholders_shape params) as [Hlit _].
  unfold fullSql, replace. change (js "?") with [QM].
  rewrite (splitFirst_QM_at pre post Hpre).
  now rewrite (getSubstitution_literal _ _ _ _ Hlit).
Qed.

(** A text without a question mark is left as it is. *)
Lemma fullSql_none (sql : jsstring) (params : list jsstring) :
  countChar QM sql = 0%nat -> fullSql sql params = sql.
Proof.
  intros H. unfold fullSql, replace. change (js "?") with [QM].
  pose proof (splitFirst_QM sql) as Hs.
  destruct (splitFirst sql [QM]) as [[before after]|]; [|reflexivity].
  destruct Hs as [Hs _]. rewrite Hs, countChar_app, countChar_QM_cons in H. lia.
Qed.

Lemma collect_spec (entries : RestBuild.SearchParams) :
  forall whereClauses params,
    RestBuild.collect entries whereClauses params
    = (whereClauses
         ++ List.map (fun kv => fst kv ++ js " = ?")
                     (filter (fun kv => RestBuild.isFilter (fst kv)) entries),
       params ++ List.map snd (filter (fun kv => RestBuild.isFilter (fst kv)) entries)).
Proof.
  induction entries as [|[key value] rest IH]; intros wc ps.
  - cbn. now rewrite !app_nil_r.
  - cbn [RestBuild.collect filter fst]. destruct (RestBuild.isFilter key).
    + rewrite IH. cbn [List.map fst snd]. now rewrite <- !app_assoc.
    + apply IH.
Qed.

(** [GET /api/:table] writes one question mark for each filter. *)
Lemma getSql_count (table : jsstring) (query : RestBuild.SearchParams) :
  (List.length (RestBuild.getParams query)
   <= countChar QM (RestBuild.getSql table query))%nat.
Proof.
  unfold RestBuild.getParams, RestBuild.getSql. cbv zeta.
  rewrite (collect_spec query [] []). cbn [fst snd app].
  rewrite !countChar_app.
  remember (filter (fun kv => RestBuild.isFilter (fst kv)) query) as fs.
  rewrite !length_map.
  destruct fs as [|f fs']; [apply Nat.le_0_l|].
  cbn [List.length Nat.ltb Nat.leb]. rewrite countChar_app.
  assert (H : (List.length (f :: fs')
               <= countChar QM (join (js " AND ")
                                     (List.map (fun kv : jsstring * jsstring =>
                                                  fst kv ++ js " = ?") (f :: fs'))))%nat).
  { clear. induction (f :: fs') as [|kv l IH]; [apply Nat.le_0_l|].
    cbn [List.map]. destruct l as [|kv' l'].
    - cbn [List.map join List.length]. rewrite countChar_app.
      change (countChar QM (js " = ?")) with 1%nat. lia.
    - cbn [List.map] in *. rewrite join_cons2, !countChar_app.
      change (countChar QM (js " = ?")) with 1%nat.
      cbn [List.length] in *. unfold jsstring, codeunit in *. lia. }
  cbn [List.length] in H. unfold RestBuild.SearchParams, jsstring, codeunit in *. lia.
Qed.

(** The statement of [PUT /api/:table/:id]: its set clauses are made
    from the keys of the [Body] object, which has none. *)
Lemma putSql_text (table : jsstring) (body : RequestBody) :
  RestApi.putSql table body
  = js "UPDATE " ++ table ++ js " SET  WHERE id = " ++ QM :: js " RETURNING *".
Proof. reflexivity. Qed.

(** C10.  [query] replaces only the first question mark of its SQL
    text by the whole list [$1, $2, ...]: the text before it and the
    text after it are kept as they are, so every later question mark
    is still a question mark in the prepared statement, whose count of
    question marks is one less than that of the SQL text.  The
    statement built by [PUT /api/:table/:id] is not of that kind: the
    handler takes the keys and values of the [Body] object, not of the
    parsed payload, so whatever the payload the statement has no set
    clause and a single question mark, that of the id, and the
    prepared statement has none left.  Statements with several
    question marks come from [GET /api/:table]: one for each filter, of
    which all but the first stay in the prepared statement. *)
Theorem only_first_placeholder_is_replaced :
  (forall (pre post : jsstring) (params : list jsstring),
      countChar QM pre = 0%nat ->
      fullSql (pre ++ js "?" ++ post) params
        = pre ++ paramPlaceholders params ++ post
      /\ countChar QM (fullSql (pre ++ js "?" ++ post) params) = countChar QM post)
  /\ (forall (sql : jsstring) (params : list jsstring),
         countChar QM (fullSql sql params) = pred (countChar QM sql)
         /\ queryCmd sql params
            = js "PREPARE stmt AS " ++ fullSql sql params ++ js "; EXECUTE stmt"
                ++ (if (0 <? List.length params)%nat
                    then js " (" ++ join (js ", ") params ++ js ")" else [])
                ++ js ";")
  /\ (forall (table id : jsstring) (body : RequestBody),
         RestApi.putSql table body
         = js "UPDATE " ++ table ++ js " SET  WHERE id = ? RETURNING *"
         /\ RestApi.putParams body id = [id]
         /\ (countChar QM table = 0%nat ->
             countChar QM (RestApi.putSql table body) = 1%nat
             /\ countChar QM (fullSql (RestApi.putSql table body)
                                      (RestApi.putParams body id)) = 0%nat
             /\ RestApi.putCmd table id body
                = js "PREPARE stmt AS UPDATE " ++ table
                     ++ js " SET  WHERE id = $1 RETURNING *; EXECUTE stmt ("
                     ++ id ++ js ");"))
  /\ (forall (table : jsstring) (query : RestBuild.SearchParams),
         (List.length (RestBuild.getParams query)
          <= countChar QM (RestBuild.getSql table query))%nat
         /\ (pred (List.length (RestBuild.getParams query))
             <= countChar QM (fullSql (RestBuild.getSql table query)
                                      (RestBuild.getParams query)))%nat).
Proof.
  split; [|split; [|split]].
  - intros pre post params Hpre.
    destruct (paramPlaceholders_shape params) as [Hlit Hcnt].
    assert (E : fullSql (pre ++ js "?" ++ post) params
                = pre ++ paramPlaceholders params ++ post).
    { unfold fullSql, replace. change (js "?" ++ post) with (QM :: post).
      change (js "?") with [QM].
      rewrite (splitFirst_QM_at pre post Hpre).
      now rewrite (getSubstitution_literal _ _ _ _ Hlit). }
    split; [exact E|].
    rewrite E, !countChar_app, Hpre, Hcnt. reflexivity.
  - intros sql params. split; [apply fullSql_count | reflexivity].
  - intros table id body.
    split; [reflexivity|]. split; [reflexivity|].
    intros Ht.
    assert (Hc : countChar QM (RestApi.putSql table body) = 1%nat).
    { rewrite putSql_text, !countChar_app, Ht. reflexivity. }
    split; [exact Hc|]. split; [now rewrite fullSql_count, Hc|].
    unfold RestApi.putCmd, queryCmd. rewrite putSql_text.
    rewrite !app_assoc, fullSql_first.
    + change (RestApi.putParams body id) with [id].
      cbn [List.length Nat.ltb Nat.leb join]. unfold jsstring, codeunit.
      rewrite <- !app_assoc. reflexivity.
    + rewrite !countChar_app, Ht. reflexivity.
  - intros table query. pose proof (getSql_count table query) as H.
    split; [exact H|]. rewrite fullSql_count. lia.
Qed.

(** A two-column update and a two-filter selection.  The update's
    payload does not reach the statement, which has the id as its only
    parameter; the selection keeps its second question mark. *)
Lemma only_first_placeholder_is_replaced_witness :
  RestApi.putCmd (js "users") (js "7") twoColumns
  = js "PREPARE stmt AS UPDATE users SET  WHERE id = $1 RETURNING *; EXECUTE stmt (7);"
  /\ RestBuild.getCmd (js "users") [(js "name", js "Ann"); (js "age", js "31")] []
     = js "PREPARE stmt AS SELECT * FROM users WHERE name = $1, $2 AND age = ?; EXECUTE stmt (Ann, 31);"
  /\ fullSql (js "SELECT * FROM users WHERE name = " ++ js "?" ++ js " AND age = ?")
             [js "Ann"; js "31"]
     = js "SELECT * FROM users WHERE name = " ++ paramPlaceholders [js "Ann"; js "31"]
          ++ js " AND age = ?".
Proof.
  split; [|split].
  - destruct (proj1 (proj2 (proj2 only_first_placeholder_is_replaced))
                    (js "users") (js "7") twoColumns) as (_ & _ & Hput).
    destruct (Hput eq_refl) as (_ & _ & Hcmd).
    rewrite Hcmd. vm_compute. reflexivity.
  - vm_compute. reflexivity.
  - apply (proj1 only_first_placeholder_is_replaced
                 (js "SELECT * FROM users WHERE name = ")
                 (js " AND age = ?")
                 [js "Ann"; js "31"]).
    vm_compute. reflexivity.
Defined.

(** ** The history table *)

(** C9, as stated, fails: [execution_time] is declared as a bare
    [TIMESTAMP]; the statement that creates the table has no [DEFAULT]
    clause at all. *)
Lemma execution_time_has_no_default :
  List.map snd (filter (fun d => Provisioner.jsEq (fst d) (js "execution_time"))
                       (Sql.columnDefs createHistoryTable))
  = [js "TIMESTAMP"]
  /\ includes (Sql.toUpperCase createHistoryTable) (js "DEFAULT") = false.
Proof. split; vm_compute; reflexivity. Qed.

(** C9, amended.  The history table has exactly the five columns
    [query_hash VARCHAR], [query_text TEXT], [result_file VARCHAR],
    [query_time DOUBLE] and [execution_time TIMESTAMP], none of them
    with a [NOT NULL] or [DEFAULT] clause; every insert names these
    five columns in this order and gives five values: the hash, the
    text with its quotes doubled and the result file as quoted strings,
    the elapsed time, and [CURRENT_TIMESTAMP] for [execution_time]. *)
Theorem history_schema_and_insert :
  Sql.columnDefs createHistoryTable
  = [(js "query_hash", js "VARCHAR"); (js "query_text", js "TEXT");
     (js "result_file", js "VARCHAR"); (js "query_time", js "DOUBLE");
     (js "execution_time", js "TIMESTAMP")]
  /\ includes (Sql.toUpperCase createHistoryTable) (js "DEFAULT") = false
  /\ includes (Sql.toUpperCase createHistoryTable) (js "NOT NULL") = false
  /\ forall queryHash queryText resultFile queryTime : jsstring,
       Sql.insertColumns (insertHistory queryHash queryText resultFile queryTime)
       = List.map fst (Sql.columnDefs createHistoryTable)
       /\ insertHistory queryHash queryText resultFile queryTime
          = js "
      INSERT INTO _query_history ("
              ++ join (js ", ") (List.map fst (Sql.columnDefs createHistoryTable))
              ++ js ")
      VALUES ("
              ++ join (js ", ")
                      [Sql.quote queryHash;
                       Sql.quote (replaceAllChar 0x27 (js "''") queryText);
                       Sql.quote resultFile;
                       queryTime;
                       js "CURRENT_TIMESTAMP"]
              ++ js ");
    ".
Proof.
  split; [vm_compute; reflexivity|].
  split; [vm_compute; reflexivity|].
  split; [vm_compute; reflexivity|].
  intros queryHash queryText resultFile queryTime. split.
  - vm_compute. reflexivity.
  - unfold insertHistory, Sql.quote. cbn [join].
    unfold jsstring, codeunit. rewrite <- !app_assoc.
    vm_compute. reflexivity.
Qed.

(** ** Fingerprints *)

Lemma hex2_byte (b : N) :
  b < 256 -> hex2 b = [hexDigit (b / 16); hexDigit (b mod 16)].
Proof.
  intros Hb. unfold hex2, toString16. destruct (b <? 16) eqn:E.
  - apply N.ltb_lt in E. rewrite (N.div_small b 16 E), (N.mod_small b 16 E).
    reflexivity.
  - reflexivity.
Qed.

Lemma hexDigit_inj (d e : N) :
  d < 16 -> e < 16 -> hexDigit d = hexDigit e -> d = e.
Proof.
  unfold hexDigit. intros Hd He.
  destruct (d <? 10) eqn:E1; destruct (e <? 10) eqn:E2;
    try apply N.ltb_lt in E1; try apply N.ltb_ge in E1;
    try apply N.ltb_lt in E2; try apply N.ltb_ge in E2; lia.
Qed.

Lemma hex2_inj (b c : N) : b < 256 -> c < 256 -> hex2 b = hex2 c -> b = c.
Proof.
  intros Hb Hc. rewrite (hex2_byte b Hb), (hex2_byte c Hc). intros H.
  inversion H as [[H1 H2]].
  assert (Hq : b / 16 = c / 16).
  { apply hexDigit_inj; auto; apply N.Div0.div_lt_upper_bound; lia. }
  assert (Hr : b mod 16 = c mod 16).
  { apply hexDigit_inj; auto; apply N.mod_lt; lia. }
  rewrite (N.div_mod b 16), (N.div_mod c 16) by lia. now rewrite Hq, Hr.
Qed.

Lemma join_nil_cons (p : jsstring) (rest : list jsstring) :
  join [] (p :: rest) = p ++ join [] rest.
Proof. destruct rest; [now rewrite app_nil_r | reflexivity]. Qed.

(** The hexadecimal rendering loses nothing: two digits for each
    byte, thanks to [padStart(2, '0')]. *)
Lemma hex_inj (bs : list N) :
  forall cs, Forall (fun b => b < 256) bs -> Forall (fun b => b < 256) cs ->
             join [] (List.map hex2 bs) = join [] (List.map hex2 cs) -> bs = cs.
Proof.
  induction bs as [|b bs IH]; intros cs Hbs Hcs H.
  - destruct cs as [|c cs]; [reflexivity|].
    inversion Hcs; subst. cbn [List.map] in H.
    rewrite join_nil_cons, hex2_byte in H by assumption. discriminate H.
  - inversion Hbs as [|? ? Hb Hbs']; subst.
    destruct cs as [|c cs].
    + cbn [List.map] in H. rewrite join_nil_cons, hex2_byte in H by assumption.
      discriminate H.
    + inversion Hcs as [|? ? Hc Hcs']; subst.
      cbn [List.map] in H. rewrite !join_nil_cons in H.
      pose proof (hex2_byte b Hb) as Eb. pose proof (hex2_byte c Hc) as Ec.
      rewrite Eb, Ec in H. cbn [app] in H. inversion H as [[H1 H2 H3]].
      f_equal.
      * apply hex2_inj; auto. now rewrite Eb, Ec, H1, H2.
      * now apply IH.
Qed.

Lemma bytesBE_bytes (n : nat) (x : N) : Forall (fun b => b < 256) (SHA256.bytesBE n x).
Proof.
  induction n as [|n IH]; constructor; [|exact IH].
  change 255 with (N.ones 8). rewrite N.land_ones.
  apply N.mod_lt. discriminate.
Qed.

Lemma digest_bytes (msg : list N) : Forall (fun b => b < 256) (SHA256.digest msg).
Proof.
  unfold SHA256.digest. apply Forall_flat_map. apply Forall_forall.
  intros w _. apply bytesBE_bytes.
Qed.

Lemma round_length (st : list N) (kw : N * N) :
  List.length (SHA256.round st kw) = List.length st.
Proof.
  unfold SHA256.round.
  destruct st as [|a [|b [|c [|d [|e [|f [|g [|h [|i t]]]]]]]]]; reflexivity.
Qed.

Lemma compress_length (h block : list N) :
  List.length (SHA256.compress h block) = List.length h.
Proof.
  unfold SHA256.compress. rewrite length_map, length_combine.
  assert (H : forall kws st, List.length (fold_left SHA256.round kws st) = List.length st).
  { induction kws as [|kw kws IHk]; intros st; [reflexivity|].
    simpl. now rewrite IHk, round_length. }
  rewrite H. apply Nat.min_id.
Qed.

Lemma digest_length (msg : list N) : List.length (SHA256.digest msg) = 32%nat.
Proof.
  unfold SHA256.digest.
  assert (H : forall bl h, List.length (fold_left SHA256.compress bl h) = List.length h).
  { induction bl as [|b bl IHb]; intros h; [reflexivity|].
    simpl. now rewrite IHb, compress_length. }
  specialize (H (SHA256.blocks (List.length (SHA256.pad msg)) (SHA256.pad msg)) SHA256.H0).
  remember (fold_left SHA256.compress
                      (SHA256.blocks (List.length (SHA256.pad msg)) (SHA256.pad msg))
                      SHA256.H0) as ws.
  change (List.length SHA256.H0) with 8%nat in H.
  destruct ws as [|a [|b [|c [|d [|e [|f [|g [|h [|i t]]]]]]]]]; try discriminate H.
  reflexivity.
Qed.

Lemma hex_length (bs : list N) :
  Forall (fun b => b < 256) bs ->
  List.length (join [] (List.map hex2 bs)) = (2 * List.length bs)%nat.
Proof.
  induction bs as [|b bs IH]; intros H; [reflexivity|].
  inversion H; subst. cbn [List.map]. rewrite join_nil_cons, length_app, IH by assumption.
  rewrite hex2_byte by assumption. simpl. lia.
Qed.

(** *** The encoder is injective *)

Ltac divmod := zify; Z.to_euclidean_division_equations; lia.

Lemma lor_add (k : N) (a x : N) :
  a mod 2 ^ k = 0 -> x < 2 ^ k -> N.lor a x = a + x.
Proof.
  intros Ha Hx.
  rewrite <- N.lxor_lor, <- N.add_nocarry_lxor; auto.
  all: apply N.bits_inj; intros n; rewrite N.land_spec, N.bits_0.
  all: destruct (N.lt_ge_cases n k) as [Hn|Hn].
  all: try (rewrite <- (N.mod_pow2_bits_low a k n Hn), Ha, N.bits_0; reflexivity).
  all: assert (Hb : N.testbit x n = false)
    by (destruct (N.eq_dec x 0) as [->|Hx0]; [apply N.bits_0|];
        apply N.bits_above_log2; apply N.log2_lt_pow2; [lia|];
        apply N.lt_le_trans with (2 ^ k); [exact Hx | now apply N.pow_le_mono_r]).
  all: rewrite Hb; apply andb_false_r.
Qed.

Lemma land_63 (x : N) : N.land x 0x3F = x mod 64.
Proof. change 0x3F with (N.ones 6). now rewrite N.land_ones. Qed.

Lemma shiftr_div (x k : N) : N.shiftr x k = x / 2 ^ k.
Proof. apply N.shiftr_div_pow2. Qed.

Lemma cont_byte (x : N) : N.lor 0x80 (x mod 64) = 0x80 + x mod 64.
Proof.
  apply (lor_add 6); [reflexivity|]. apply N.mod_lt. discriminate.
Qed.

(** The bytes of a code point, in arithmetic form. *)
Lemma utf8_bytes (cp : N) :
  cp < 0x110000 ->
  utf8 cp
  = if cp <? 0x80 then [cp]
    else if cp <? 0x800 then [0xC0 + cp / 64; 0x80 + cp mod 64]
    else if cp <? 0x10000
         then [0xE0 + cp / 4096; 0x80 + (cp / 64) mod 64; 0x80 + cp mod 64]
         else [0xF0 + cp / 262144; 0x80 + (cp / 4096) mod 64;
               0x80 + (cp / 64) mod 64; 0x80 + cp mod 64].
Proof.
  intros Hcp. unfold utf8.
  rewrite !land_63, !shiftr_div, !cont_byte.
  change (2 ^ 6) with 64. change (2 ^ 12) with 4096. change (2 ^ 18) with 262144.
  destruct (cp <? 0x80) eqn:E1; [reflexivity|].
  destruct (cp <? 0x800) eqn:E2.
  - apply N.ltb_lt in E2. rewrite (lor_add 5); [reflexivity | reflexivity |].
    change (2 ^ 5) with 32. divmod.
  - destruct (cp <? 0x10000) eqn:E3.
    + apply N.ltb_lt in E3. rewrite (lor_add 4); [reflexivity | reflexivity |].
      change (2 ^ 4) with 16. divmod.
    + rewrite (lor_add 3); [reflexivity | reflexivity |].
      change (2 ^ 3) with 8. divmod.
Qed.

Lemma add_sub_l (a b : N) : a + b - a = b.
Proof. now rewrite N.add_comm, N.add_sub. Qed.

(** A code unit that is not a surrogate is read back as itself. *)
Lemma decode_scalar (c : N) (bs : list N) :
  c < 0x10000 -> decode (utf8 c ++ bs) = c :: decode bs.
Proof.
  intros Hc. rewrite utf8_bytes by lia.
  destruct (c <? 0x80) eqn:E1.
  - cbn [app decode]. now rewrite E1.
  - apply N.ltb_ge in E1. destruct (c <? 0x800) eqn:E2.
    + apply N.ltb_lt in E2. cbn [app decode].
      assert (H1 : (0xC0 + c / 64 <? 0x80) = false) by (apply N.ltb_ge; divmod).
      assert (H2 : (0xC0 + c / 64 <? 0xE0) = true) by (apply N.ltb_lt; divmod).
      rewrite H1, H2, !add_sub_l. f_equal. divmod.
    + apply N.ltb_ge in E2. apply N.ltb_lt in Hc as E3. rewrite E3. cbn [app decode].
      assert (H1 : (0xE0 + c / 4096 <? 0x80) = false) by (apply N.ltb_ge; divmod).
      assert (H2 : (0xE0 + c / 4096 <? 0xE0) = false) by (apply N.ltb_ge; divmod).
      assert (H3 : (0xE0 + c / 4096 <? 0xF0) = true) by (apply N.ltb_lt; divmod).
      rewrite H1, H2, H3, !add_sub_l. f_equal. divmod.
Qed.

Lemma slices (cp : N) :
  cp / 262144 * 262144 + (cp / 4096) mod 64 * 4096 + (cp / 64) mod 64 * 64 + cp mod 64
  = cp.
Proof. divmod. Qed.

(** A surrogate pair is read back as itself. *)
Lemma decode_pair (c d : N) (bs : list N) :
  isHighSurrogate c = true -> isLowSurrogate d = true ->
  decode (utf8 (0x10000 + N.shiftl (c - 0xD800) 10 + (d - 0xDC00)) ++ bs)
  = c :: d :: decode bs.
Proof.
  unfold isHighSurrogate, isLowSurrogate. intros Hc Hd.
  apply andb_true_iff in Hc. destruct Hc as [Hc1 Hc2].
  apply andb_true_iff in Hd. destruct Hd as [Hd1 Hd2].
  apply N.leb_le in Hc1, Hc2, Hd1, Hd2.
  rewrite N.shiftl_mul_pow2. change (2 ^ 10) with 1024.
  remember (c - 0xD800) as x. remember (d - 0xDC00) as y.
  assert (Hx : x < 1024) by lia. assert (Hy : y < 1024) by lia.
  assert (Ec : c = 0xD800 + x) by lia. assert (Ed : d = 0xDC00 + y) by lia.
  clear Heqx Heqy Hc1 Hc2 Hd1 Hd2. subst c d.
  remember (0x10000 + x * 1024 + y) as cp.
  assert (Hlo : 0x10000 <= cp) by lia.
  assert (Hhi : cp < 0x110000) by lia.
  rewrite utf8_bytes by exact Hhi.
  assert (E1 : (cp <? 0x80) = false) by (apply N.ltb_ge; lia).
  assert (E2 : (cp <? 0x800) = false) by (apply N.ltb_ge; lia).
  assert (E3 : (cp <? 0x10000) = false) by (apply N.ltb_ge; lia).
  rewrite E1, E2, E3. cbn [app decode].
  pose proof (N.le_0_l (cp / 262144)) as Hq.
  assert (H1 : (0xF0 + cp / 262144 <? 0x80) = false) by (apply N.ltb_ge; lia).
  assert (H2 : (0xF0 + cp / 262144 <? 0xE0) = false) by (apply N.ltb_ge; lia).
  assert (H3 : (0xF0 + cp / 262144 <? 0xF0) = false) by (apply N.ltb_ge; lia).
  rewrite H1, H2, H3. cbv zeta. rewrite !add_sub_l, slices.
  assert (Hm : cp - 0x10000 = y + x * 1024) by lia.
  rewrite Hm, N.div_add, N.Div0.mod_add by discriminate.
  rewrite (N.div_small y 1024 Hy), (N.mod_small y 1024 Hy). reflexivity.
Qed.

Lemma decode_encode (n : nat) :
  forall s, (List.length s < n)%nat -> wellFormed s = true -> decode (encode s) = s.
Proof.
  induction n as [|n IH]; intros s Hn Hwf; [lia|].
  destruct s as [|c rest]; [reflexivity|].
  cbn [wellFormed encode] in *.
  destruct (isHighSurrogate c) eqn:Eh.
  - destruct rest as [|d rest']; [discriminate Hwf|].
    apply andb_true_iff in Hwf. destruct Hwf as [Hd Hwf]. rewrite Hd.
    rewrite (decode_pair c d _ Eh Hd). rewrite (IH rest'); auto.
    simpl in Hn. lia.
  - apply andb_true_iff in Hwf. destruct Hwf as [Hwf Hrest].
    apply andb_true_iff in Hwf. destruct Hwf as [Hl Hc].
    apply negb_true_iff in Hl. rewrite Hl.
    apply N.ltb_lt in Hc. rewrite (decode_scalar c _ Hc), (IH rest); auto.
    simpl in Hn. lia.
Qed.

(** On strings without unpaired surrogates the encoder is injective. *)
Lemma encode_inj (a b : jsstring) :
  wellFormed a = true -> wellFormed b = true -> encode a = encode b -> a = b.
Proof.
  intros Ha Hb H.
  rewrite <- (decode_encode (S (List.length a)) a (Nat.lt_succ_diag_r _) Ha).
  rewrite <- (decode_encode (S (List.length b)) b (Nat.lt_succ_diag_r _) Hb).
  now rewrite H.
Qed.

(** C6, as stated, fails: a text with an unpaired surrogate and the
    text with U+FFFD in its place are distinct, yet they have the same
    UTF-8 encoding, so SHA-256 is given the same bytes and the two
    fingerprints are equal, with no collision involved. *)
Lemma distinct_texts_share_a_fingerprint :
  js "SELECT '" ++ [0xD800] ++ js "';" <> js "SELECT '" ++ [0xFFFD] ++ js "';"
  /\ TextEncoder.encode (js "SELECT '" ++ [0xD800] ++ js "';")
     = TextEncoder.encode (js "SELECT '" ++ [0xFFFD] ++ js "';")
  /\ hashQuery (js "SELECT '" ++ [0xD800] ++ js "';")
     = hashQuery (js "SELECT '" ++ [0xFFFD] ++ js "';")
  /\ wellFormed (js "SELECT '" ++ [0xD800] ++ js "';") = false
  /\ wellFormed (js "SELECT '" ++ [0xFFFD] ++ js "';") = true.
Proof.
  split; [vm_compute; discriminate|].
  repeat split; vm_compute; reflexivity.
Qed.

(** C6, amended.  [hashQuery] is a function of its text alone: the same text
    gives the same fingerprint at every call.  The fingerprint is the
    64-digit hexadecimal rendering of the SHA-256 digest of the UTF-8
    text, and neither the rendering nor the encoding loses anything:
    two texts have the same fingerprint exactly when their digests are
    equal, and two distinct texts without unpaired surrogates have
    distinct UTF-8 encodings.  So two distinct texts without unpaired
    surrogates have different fingerprints unless their encodings are
    a collision of SHA-256. *)
Theorem fingerprint_deterministic (a b : jsstring) :
  (a = b -> hashQuery a = hashQuery b)
  /\ (hashQuery a = hashQuery b
      <-> SHA256.digest (TextEncoder.encode a) = SHA256.digest (TextEncoder.encode b))
  /\ (wellFormed a = true -> wellFormed b = true -> a <> b ->
      TextEncoder.encode a <> TextEncoder.encode b
      /\ (SHA256.digest (TextEncoder.encode a) <> SHA256.digest (TextEncoder.encode b) ->
          hashQuery a <> hashQuery b))
  /\ List.length (hashQuery a) = 64%nat.
Proof.
  assert (Hiff : hashQuery a = hashQuery b
                 <-> SHA256.digest (TextEncoder.encode a)
                     = SHA256.digest (TextEncoder.encode b)).
  { unfold hashQuery. cbv zeta. fold hex2. split.
    - apply hex_inj; apply digest_bytes.
    - now intros ->. }
  split; [now intros ->|]. split; [exact Hiff|]. split.
  - intros Ha Hb Hne. split.
    + intros Henc. apply Hne. now apply encode_inj.
    + intros Hd Heq. apply Hd. now apply Hiff.
  - unfold hashQuery. cbv zeta. fold hex2.
    rewrite hex_length by apply digest_bytes. now rewrite digest_length.
Qed.

Lemma fingerprint_deterministic_witness :
  hashQuery (js "SELECT 1;") = hashQuery (js "SELECT 1;")
  /\ hashQuery (js "SELECT 1;") <> hashQuery (js "SELECT 2;")
  /\ hashQuery (js "abc")
     = js "ba7816bf8f01cfea414140de5dae2223b00361a396177a9cb410ff61f20015ad".
Proof.
  split; [|split].
  - apply (proj1 (fingerprint_deterministic (js "SELECT 1;") (js "SELECT 1;"))).
    reflexivity.
  - apply (proj1 (proj2 (proj2 (fingerprint_deterministic
                                  (js "SELECT 1;") (js "SELECT 2;"))))).
    + reflexivity.
    + reflexivity.
    + vm_compute. discriminate.
    + vm_compute. discriminate.
  - vm_compute. reflexivity.
Defined.

(* ================================================================== *)
(** * Further properties *)
(* ================================================================== *)

(** ** Texts: [trim] and [includes] *)

Lemma trimStart_head (s : jsstring) :
  match trimStart s with
  | [] => True
  | c :: _ => isWhiteSpace c = false
  end.
Proof.
  induction s as [|c s IH]; [exact I|].
  cbn [trimStart]. destruct (isWhiteSpace c) eqn:E; [exact IH | exact E].
Qed.

Lemma trimStart_keep (c : codeunit) (t : jsstring) :
  isWhiteSpace c = false -> trimStart (c :: t) = c :: t.
Proof. intros H. cbn [trimStart]. now rewrite H. Qed.

Lemma trimStart_app (pre : jsstring) (c : codeunit) (rest : jsstring) :
  isWhiteSpace c = false ->
  trimStart (pre ++ c :: rest) = trimStart pre ++ c :: rest.
Proof.
  intros Hc. induction pre as [|d pre IH].
  - cbn [app trimStart]. now rewrite Hc.
  - cbn [app trimStart]. destruct (isWhiteSpace d); [exact IH | reflexivity].
Qed.

(** What [trim] returns is empty, or starts and ends with a character
    that is not white space. *)
Lemma trim_ends (s : jsstring) :
  trim s = []
  \/ exists c d t u,
       trim s = c :: t /\ trim s = u ++ [d]
       /\ isWhiteSpace c = false /\ isWhiteSpace d = false.
Proof.
  unfold trim, trimEnd.
  pose proof (trimStart_head s) as H1.
  destruct (trimStart s) as [|c t]; [now left|]. right.
  cbn [List.rev]. rewrite (trimStart_app (List.rev t) c [] H1).
  rewrite rev_app_distr. cbn [List.rev app].
  pose proof (trimStart_head (List.rev t)) as H2.
  destruct (trimStart (List.rev t)) as [|d u].
  - exists c, c, [], []. cbn. auto.
  - exists c, d, (List.rev (d :: u)), (c :: List.rev u).
    cbn [List.rev app]. auto.
Qed.

Lemma trim_fixed (x : jsstring) (c d : codeunit) (t u : jsstring) :
  x = c :: t -> x = u ++ [d] ->
  isWhiteSpace c = false -> isWhiteSpace d = false -> trim x = x.
Proof.
  intros Hx1 Hx2 Hc Hd. unfold trim, trimEnd.
  rewrite Hx1, (trimStart_keep c t Hc), <- Hx1, Hx2.
  rewrite rev_app_distr. cbn [List.rev app].
  rewrite (trimStart_keep d (List.rev u) Hd).
  cbn [List.rev]. now rewrite rev_involutive.
Qed.

Lemma trim_idempotent (s : jsstring) : trim (trim s) = trim s.
Proof.
  destruct (trim_ends s) as [H | (c & d & t & u & H1 & H2 & Hc & Hd)].
  - rewrite H. reflexivity.
  - exact (trim_fixed (trim s) c d t u H1 H2 Hc Hd).
Qed.

Lemma startsWith_app (m post : jsstring) : startsWith (m ++ post) m = true.
Proof.
  induction m as [|c m IH]; [reflexivity|].
  cbn [app startsWith]. now rewrite N.eqb_refl, IH.
Qed.

Lemma startsWith_split (m : jsstring) :
  forall s, startsWith s m = true -> exists post, s = m ++ post.
Proof.
  induction m as [|c m IH]; intros s H.
  - now exists s.
  - destruct s as [|d s]; [discriminate H|].
    cbn [startsWith] in H. apply andb_true_iff in H. destruct H as [H1 H2].
    apply N.eqb_eq in H1. subst d.
    destruct (IH s H2) as (post & ->). now exists post.
Qed.

Lemma includes_app (pre m post : jsstring) : includes (pre ++ m ++ post) m = true.
Proof.
  induction pre as [|c pre IH].
  - cbn [app]. destruct (m ++ post) eqn:E.
    + cbn [includes]. rewrite <- E at 1. now rewrite startsWith_app.
    + cbn [includes]. rewrite <- E at 1. now rewrite startsWith_app.
  - cbn [app includes]. rewrite IH. apply orb_true_r.
Qed.

Lemma includes_split (m : jsstring) :
  forall s, includes s m = true -> exists pre post, s = pre ++ m ++ post.
Proof.
  induction s as [|c s IH]; intros H.
  - cbn [includes] in H. rewrite orb_false_r in H.
    destruct (startsWith_split m [] H) as (post & Hp). now exists [], post.
  - cbn [includes] in H. apply orb_true_iff in H. destruct H as [H | H].
    + destruct (startsWith_split m (c :: s) H) as (post & Hp). now exists [], post.
    + destruct (IH H) as (pre & post & ->). now exists (c :: pre), post.
Qed.

(** Trimming keeps an occurrence of a text that starts and ends with
    characters that are not white space. *)
Lemma includes_trim (s m m' u : jsstring) (c d : codeunit) :
  m = c :: m' -> m = u ++ [d] ->
  isWhiteSpace c = false -> isWhiteSpace d = false ->
  includes s m = true -> includes (trim s) m = true.
Proof.
  intros Hm1 Hm2 Hc Hd H.
  destruct (includes_split m s H) as (pre & post & ->).
  unfold trim, trimEnd.
  rewrite Hm1 at 1. cbn [app]. rewrite (trimStart_app pre c (m' ++ post) Hc).
  change (c :: m' ++ post) with ((c :: m') ++ post). rewrite <- Hm1.
  remember (trimStart pre) as P.
  assert (E1 : List.rev (P ++ m ++ post)
               = List.rev post ++ d :: (List.rev u ++ List.rev P)).
  { rewrite Hm2, !rev_app_distr. cbn [List.rev app]. now rewrite <- !app_assoc. }
  rewrite E1, (trimStart_app (List.rev post) d _ Hd).
  assert (E2 : List.rev (trimStart (List.rev post) ++ d :: (List.rev u ++ List.rev P))
               = P ++ m ++ List.rev (trimStart (List.rev post))).
  { rewrite rev_app_distr. cbn [List.rev]. rewrite rev_app_distr, !rev_involutive.
    rewrite Hm2, <- !app_assoc. reflexivity. }
  rewrite E2. apply includes_app.
Qed.

(** ** [runCmd]: when it resolves *)

(** What a resolved call went through. *)
Lemma runCmd_resolved (cmd : jsstring) (p : Proc) (out : jsstring) :
  fst (runCmd cmd p) = Resolved out ->
  exists p1 exit1 o so exit2 se,
    write (cmd ++ LF) p = Some p1
    /\ readStdout (stdout p) = (exit1, o, so) /\ exit1 <> Stuck
    /\ readStderr (stderr p) = (exit2, [], se) /\ exit2 <> Stuck
    /\ out = trim o
    /\ snd (runCmd cmd p)
       = {| stdin := stdin p1; accepts := accepts p1; stdout := so; stderr := se |}.
Proof.
  unfold runCmd. destruct (write (cmd ++ LF) p) as [p1|] eqn:Hw; [|discriminate].
  destruct (write_streams _ _ _ Hw) as (_ & Hso & Hse).
  unfold awaitCmd. rewrite Hso, Hse.
  destruct (readStdout (stdout p)) as [[exit1 o] so] eqn:E1.
  destruct (readStderr (stderr p)) as [[exit2 err] se] eqn:E2.
  intros H. exists p1, exit1, o, so, exit2, se.
  destruct exit1; destruct exit2; try discriminate H;
    destruct err; try discriminate H; cbn in H; inversion H; subst;
      repeat split; auto; discriminate.
Qed.

(** The stderr loop ends with nothing read only at the end of a stream
    that held no text. *)
Lemma readStderr_nothing (s : Stream) (exit : LoopExit) (se : Stream) :
  readStderr s = (exit, [], se) -> exit <> Stuck ->
  se = {| chunks := []; final := Closed |}
  /\ final s = Closed /\ List.concat (chunks s) = [].
Proof.
  unfold readStderr. intros H Hexit.
  destruct (readLoop_spec (fun err => includes err LF) (chunks s) (final s) [])
    as (taken & rest & exit' & Hcs & Hrun & _ & Hcase).
  rewrite Hrun in H. cbn [app] in H. inversion H; subst exit'.
  destruct exit.
  - destruct Hcase as [_ Hstop]. cbn [app] in Hstop.
    rewrite H2 in Hstop. discriminate Hstop.
  - destruct Hcase as [-> ->]. rewrite app_nil_r in Hcs.
    repeat split; auto. now rewrite Hcs.
  - congruence.
Qed.

(** On a process whose stderr has ended, no call reports an engine
    error. *)
Lemma runCmd_no_engine_error (cmd : jsstring) (p : Proc) (msg : jsstring) :
  stderr p = {| chunks := []; final := Closed |} ->
  fst (runCmd cmd p) <> Rejected (EngineError msg)
  /\ stderr (snd (runCmd cmd p)) = {| chunks := []; final := Closed |}.
Proof.
  intros He. unfold runCmd.
  destruct (write (cmd ++ LF) p) as [p1|] eqn:Hw.
  - destruct (write_streams _ _ _ Hw) as (_ & Hso & Hse).
    unfold awaitCmd. rewrite Hso, Hse, He.
    destruct (readStdout (stdout p)) as [[[] o] so]; cbn; split; auto; discriminate.
  - cbn. split; [discriminate | exact He].
Qed.

(** X1.  [runCmd] resolves only when the diagnostic stream has ended
    without having delivered any text: while stderr is open the call
    cannot succeed.  After a call that resolved, stderr is exhausted,
    so no later call on the same process rejects with an engine
    error. *)
Theorem resolved_means_stderr_ended
        (cmd : jsstring) (p : Proc) (out : jsstring) :
  fst (runCmd cmd p) = Resolved out ->
  final (stderr p) = Closed
  /\ List.concat (chunks (stderr p)) = []
  /\ forall (later : list jsstring) (cmd' msg : jsstring),
       fst (runCmd cmd'
                   (fold_left (fun q c => snd (runCmd c q)) later
                              (snd (runCmd cmd p))))
       <> Rejected (EngineError msg).
Proof.
  intros H.
  destruct (runCmd_resolved cmd p out H)
    as (p1 & exit1 & o & so & exit2 & se & _ & _ & _ & E2 & Hx2 & _ & Hp).
  destruct (readStderr_nothing (stderr p) exit2 se E2 Hx2) as (Hse & Hfin & Hcat).
  split; [exact Hfin|]. split; [exact Hcat|].
  assert (Hq : stderr (snd (runCmd cmd p)) = {| chunks := []; final := Closed |}).
  { rewrite Hp. exact Hse. }
  clear - Hq. generalize dependent (snd (runCmd cmd p)).
  intros q Hq later. revert q Hq.
  induction later as [|c later IH]; intros q Hq cmd' msg.
  - apply (runCmd_no_engine_error cmd' q msg Hq).
  - cbn [fold_left]. apply IH.
    apply (runCmd_no_engine_error c q [] Hq).
Qed.

(** A process that has exited after a successful statement. *)
Lemma resolved_means_stderr_ended_witness :
  let p := spawn None
                 {| chunks := [js "42" ++ LF; js "Run Time: 0.001s" ++ LF];
                    final := Closed |}
                 {| chunks := [[]]; final := Closed |} in
  fst (runCmd (js "SELECT 42;") p) = Resolved (js "42" ++ LF ++ js "Run Time: 0.001s")
  /\ final (stderr p) = Closed
  /\ fst (runCmd (js "SELEC;") (snd (runCmd (js "SELECT 42;") p)))
     <> Rejected (EngineError (js "Parser Error")).
Proof.
  intros p.
  assert (H : fst (runCmd (js "SELECT 42;") p)
              = Resolved (js "42" ++ LF ++ js "Run Time: 0.001s"))
    by (vm_compute; reflexivity).
  split; [exact H|].
  destruct (resolved_means_stderr_ended (js "SELECT 42;") p _ H) as (H1 & _ & H3).
  split; [exact H1|]. exact (H3 [] (js "SELEC;") (js "Parser Error")).
Defined.

(** X2.  The text [runCmd] resolves with has no white space at either
    end, and it contains the marker [Run Time:] unless stdout has
    ended: a call can resolve without the marker only on a stream that
    has been read to its end. *)
Theorem resolved_text_is_trimmed_and_marked
        (cmd : jsstring) (p : Proc) (out : jsstring) :
  fst (runCmd cmd p) = Resolved out ->
  (out = []
   \/ exists c d t u, out = c :: t /\ out = u ++ [d]
                      /\ isWhiteSpace c = false /\ isWhiteSpace d = false)
  /\ (includes out marker = true
      \/ stdout (snd (runCmd cmd p)) = {| chunks := []; final := Closed |}).
Proof.
  intros H.
  destruct (runCmd_resolved cmd p out H)
    as (p1 & exit1 & o & so & exit2 & se & _ & E1 & Hx1 & _ & _ & -> & Hp).
  split; [apply trim_ends|].
  unfold readStdout in E1.
  destruct (readLoop_spec (fun out => includes out marker)
                          (chunks (stdout p)) (final (stdout p)) [])
    as (taken & rest & exit' & _ & Hrun & _ & Hcase).
  rewrite Hrun in E1. cbn [app] in E1. inversion E1; subst exit' o so.
  destruct exit1.
  - left. destruct Hcase as [_ Hstop]. cbn [app] in Hstop.
    apply (includes_trim (List.concat taken) marker (js "un Time:") (js "Run Time")
                         0x52 0x3A); auto.
  - right. destruct Hcase as [Hr Hf]. rewrite Hp. cbn [stdout].
    now rewrite Hr, Hf.
  - congruence.
Qed.

Lemma resolved_text_is_trimmed_and_marked_witness :
  let p := spawn None
                 {| chunks := [LF ++ js "42" ++ LF; js "Run Time: 0.001s" ++ LF;
                               js "next"];
                    final := Silent |}
                 {| chunks := []; final := Closed |} in
  let out := js "42" ++ LF ++ js "Run Time: 0.001s" in
  fst (runCmd (js "SELECT 42;") p) = Resolved out
  /\ (out = []
      \/ exists c d t u, out = c :: t /\ out = u ++ [d]
                         /\ isWhiteSpace c = false /\ isWhiteSpace d = false)
  /\ (includes out marker = true
      \/ stdout (snd (runCmd (js "SELECT 42;") p))
         = {| chunks := []; final := Closed |}).
Proof.
  intros p out.
  assert (H : fst (runCmd (js "SELECT 42;") p) = Resolved out)
    by (vm_compute; reflexivity).
  split; [exact H|].
  exact (resolved_text_is_trimmed_and_marked (js "SELECT 42;") p out H).
Defined.

(** ** The history statement *)

Lemma readLiteral_escaped (text rest : jsstring) :
  match rest with c :: _ => c <> 0x27 | [] => True end ->
  readLiteral (replaceAllChar 0x27 (js "''") text ++ 0x27 :: rest)
  = Some (text, rest).
Proof.
  intros Hrest. induction text as [|c text IH].
  - cbn [replaceAllChar flat_map app readLiteral]. rewrite N.eqb_refl.
    destruct rest as [|d rest']; [reflexivity|].
    destruct (d =? 0x27) eqn:E; [apply N.eqb_eq in E; contradiction | reflexivity].
  - unfold replaceAllChar in *. change (js "''") with [0x27; 0x27] in *.
    cbn [flat_map].
    destruct (c =? 0x27) eqn:E.
    + apply N.eqb_eq in E. subst c.
      cbn [app readLiteral].
      rewrite !N.eqb_refl. now rewrite IH.
    + cbn [app readLiteral]. rewrite E. now rewrite IH.
Qed.

(** X3.  [saveQueryHistory] doubles every quote of the query text, and
    that is a faithful escape: read as an SQL string literal, the
    second value of the INSERT statement is the query text exactly,
    whatever quotes the text holds, and the literal ends where the
    statement goes on to the result file. *)
Theorem history_text_round_trip
        (queryHash queryText resultFile queryTime : jsstring) :
  exists before after,
    insertHistory queryHash queryText resultFile queryTime
      = before ++ 0x27 :: after
    /\ before = js "
      INSERT INTO _query_history (query_hash, query_text, result_file, query_time, execution_time)
      VALUES ('" ++ queryHash ++ js "', "
    /\ readLiteral after
       = Some (queryText,
               js ", '" ++ resultFile ++ js "', " ++ queryTime
                  ++ js ", CURRENT_TIMESTAMP);
    ").
Proof.
  exists (js "
      INSERT INTO _query_history (query_hash, query_text, result_file, query_time, execution_time)
      VALUES ('" ++ queryHash ++ js "', ").
  exists (replaceAllChar 0x27 (js "''") queryText
            ++ 0x27 :: (js ", '" ++ resultFile ++ js "', " ++ queryTime
                           ++ js ", CURRENT_TIMESTAMP);
    ")).
  split; [|split; [reflexivity|]].
  - unfold insertHistory. cbv zeta. unfold jsstring, codeunit.
    rewrite <- !app_assoc. vm_compute. reflexivity.
  - apply readLiteral_escaped. cbn. discriminate.
Qed.

Lemma hexDigit_is_hex (d : N) : d < 16 -> isHexDigit (hexDigit d) = true.
Proof.
  intros Hd. unfold hexDigit, isHexDigit.
  destruct (d <? 10) eqn:E.
  - apply N.ltb_lt in E. apply orb_true_iff. left.
    apply andb_true_iff. split; apply N.leb_le; lia.
  - apply N.ltb_ge in E. apply orb_true_iff. right.
    apply andb_true_iff. split; apply N.leb_le; lia.
Qed.

Lemma hex_is_hex (bs : list N) :
  Forall (fun b => b < 256) bs ->
  forallb isHexDigit (join [] (List.map hex2 bs)) = true.
Proof.
  induction bs as [|b bs IH]; intros H; [reflexivity|].
  inversion H as [|? ? Hb Hbs]; subst.
  cbn [List.map]. rewrite join_nil_cons, forallb_app, (IH Hbs), andb_true_r.
  rewrite (hex2_byte b Hb). cbn [forallb].
  rewrite !hexDigit_is_hex; auto.
  - apply N.mod_lt. discriminate.
  - apply N.Div0.div_lt_upper_bound. lia.
Qed.

(** X4.  A fingerprint consists of the digits [0-9] and the letters
    [a-f] only.  It therefore holds no quote, so the first literal of
    the history INSERT, which is not escaped, ends where it should,
    and no slash or dot, so [queries/<hash>.sql] names a file directly
    under [queries]. *)
Theorem fingerprint_is_hex (text : jsstring) :
  forallb isHexDigit (hashQuery text) = true
  /\ countChar 0x27 (hashQuery text) = 0%nat
  /\ countChar 0x2F (hashQuery text) = 0%nat
  /\ countChar 0x2E (hashQuery text) = 0%nat.
Proof.
  assert (H : forallb isHexDigit (hashQuery text) = true).
  { unfold hashQuery. cbv zeta. fold hex2. apply hex_is_hex, digest_bytes. }
  split; [exact H|].
  assert (Hc : forall c s, isHexDigit c = false -> forallb isHexDigit s = true ->
                           countChar c s = 0%nat).
  { intros c s Hc. induction s as [|d s IH]; intros Hs; [reflexivity|].
    cbn [forallb] in Hs. apply andb_true_iff in Hs. destruct Hs as [Hd Hs].
    rewrite countChar_cons. destruct (c =? d) eqn:E.
    - apply N.eqb_eq in E. subst d. congruence.
    - now apply IH. }
  repeat split; apply Hc; auto.
Qed.

(** ** The router: which handler answers *)

Lemma runCmd_accepts_all (cmd : jsstring) (p : Proc) :
  accepts p = None ->
  accepts (snd (runCmd cmd p)) = None
  /\ stdin (snd (runCmd cmd p)) = stdin p ++ [cmd ++ LF].
Proof.
  intros Ha. split; [|now rewrite runCmd_stdin, Ha].
  unfold runCmd, write. rewrite Ha.
  now rewrite (proj2 (awaitCmd_stdin _)).
Qed.

(** A segment that spells a word of several letters is not empty. *)
Lemma sameIgnoringCase_nonempty (a : jsstring) (c : codeunit) (word : jsstring) :
  Router.sameIgnoringCase a (c :: word) = true -> a <> [].
Proof. destruct a; [discriminate | discriminate]. Qed.

(** X5.  No request reaches the handler registered for [POST
    /api/query] through the router of [createRestApi]: the route [POST
    /api/:table] is registered before it, matches every path that
    [/api/query] matches, with the second segment as its table, and
    its handler does not call [next()].  A [POST] to [/api/query] is
    thus answered as an insertion into a table called [query]: the one
    line the process receives is that statement, not the text of the
    request and no history INSERT. *)
Theorem post_query_is_shadowed :
  (forall m path params,
      Router.dispatch Router.createRestApi m path <> Some (Router.PostQuery, params))
  /\ (forall a q : Router.Segment,
         Router.sameIgnoringCase (Router.raw a) (js "api") = true ->
         Router.sameIgnoringCase (Router.raw q) (js "query") = true ->
         Router.matchPath [Router.Lit (js "api"); Router.Lit (js "query")] [a; q] = Some []
         /\ Router.dispatch Router.createRestApi Router.POST [a; q]
            = Some (Router.PostTable, [Router.decoded q]))
  /\ Router.dispatch Router.createRestApi Router.POST
                     [Router.plain (js "api"); Router.plain (js "query")]
     = Some (Router.PostTable, [js "query"])
  /\ (forall (body : RequestBody) (p : Proc),
         accepts p = None ->
         stdin (snd (RestBuild.postTable (js "query") body p))
         = stdin p ++ [js "PREPARE stmt AS INSERT INTO query () VALUES () RETURNING *; EXECUTE stmt;"
                          ++ LF]).
Proof.
  split; [|split; [|split]].
  - intros m path params H.
    unfold Router.createRestApi in H.
    destruct path as [|a [|q [|r rest]]];
      destruct m; cbn in H;
      repeat match type of H with
             | context [if ?b then _ else _] => destruct b eqn:?
             | context [match Router.raw ?x with _ => _ end] => destruct (Router.raw x) eqn:?
             end;
      cbn in *; try discriminate.
  - intros a q Ha Hq.
    pose proof (sameIgnoringCase_nonempty _ _ _ Hq) as Hne.
    unfold Router.createRestApi, Router.get, Router.post.
    cbn [Router.dispatch Router.methods Router.pattern Router.handler
         existsb Router.methodEq orb Router.matchPath].
    rewrite Ha, Hq.
    destruct (Router.raw q); [congruence|]. split; reflexivity.
  - vm_compute. reflexivity.
  - intros body p Ha. unfold RestBuild.postTable, query.
    rewrite (proj2 (runCmd_accepts_all _ p Ha)). vm_compute (Supervisor.queryCmd _ _).
    reflexivity.
Qed.

(** ** Frames from the bridge to the client *)

Import ClientView.

Lemma split_nonempty (sep : codeunit) (s : jsstring) : split sep s <> [].
Proof.
  destruct s as [|c s]; cbn [split]; [discriminate|].
  destruct (c =? sep); [discriminate|].
  destruct (split sep s); discriminate.
Qed.

Lemma join_cons_head (sep : jsstring) (c : codeunit) (h : jsstring) (t : list jsstring) :
  join sep ((c :: h) :: t) = c :: join sep (h :: t).
Proof. destruct t; reflexivity. Qed.

(** Joining the pieces of [split] with the separator gives the text
    back. *)
Lemma join_split (sep : codeunit) (s : jsstring) : join [sep] (split sep s) = s.
Proof.
  induction s as [|c s IH]; [reflexivity|].
  cbn [split]. destruct (c =? sep) eqn:E.
  - apply N.eqb_eq in E. subst c.
    pose proof (split_nonempty sep s) as Hne.
    destruct (split sep s) as [|h t]; [congruence|].
    rewrite join_cons2. cbn [app]. now rewrite IH.
  - pose proof (split_nonempty sep s) as Hne.
    destruct (split sep s) as [|h t]; [congruence|].
    rewrite join_cons_head. now rewrite IH.
Qed.

(** A tag without the separator is the first piece. *)
Lemma split_tag (sep : codeunit) (tag content : jsstring) :
  countChar sep tag = 0%nat ->
  split sep (tag ++ sep :: content) = tag :: split sep content.
Proof.
  induction tag as [|c tag IH]; intros H.
  - cbn [app split]. now rewrite N.eqb_refl.
  - rewrite countChar_cons in H. destruct (sep =? c) eqn:E; [discriminate H|].
    cbn [app split]. rewrite N.eqb_sym, E. now rewrite (IH H).
Qed.

(** X6.  The framing [stream:content] of the bridge and
    [handleMessage] of the client fit together: a chunk read from
    stdout is sent as one frame which the client appends, unchanged, to
    its output and to its parse buffer, and a chunk read from stderr is
    appended to the output inside the red [span] and leaves the parse
    buffer alone, also when the chunk itself holds colons. *)
Theorem frames_reach_the_client
        (s : Bridge.Session) (content : jsstring) (a : Client.App) :
  Bridge.sent (Bridge.step s (Bridge.StdoutRead content))
    = Bridge.sent s ++ [js "stdout:" ++ content]
  /\ Bridge.sent (Bridge.step s (Bridge.StderrRead content))
     = Bridge.sent s ++ [js "stderr:" ++ content]
  /\ handleMessage (js "stdout:" ++ content) a = handleStdout content a
  /\ handleMessage (js "stderr:" ++ content) a = handleStderr content a
  /\ Client.output (handleMessage (js "stdout:" ++ content) a)
     = Client.output a ++ content
  /\ Client.outputBuffer (handleMessage (js "stdout:" ++ content) a)
     = Client.outputBuffer a ++ content
  /\ Client.output (handleMessage (js "stderr:" ++ content) a)
     = Client.output a
         ++ js "<span class=" ++ [0x22] ++ js "text-red-500" ++ [0x22] ++ js ">"
         ++ content ++ js "</span>"
  /\ Client.outputBuffer (handleMessage (js "stderr:" ++ content) a)
     = Client.outputBuffer a.
Proof.
  assert (H1 : handleMessage (js "stdout:" ++ content) a = handleStdout content a).
  { unfold handleMessage.
    change (js "stdout:" ++ content) with (js "stdout" ++ colon :: content).
    rewrite (split_tag colon (js "stdout") content eq_refl), join_split.
    reflexivity. }
  assert (H2 : handleMessage (js "stderr:" ++ content) a = handleStderr content a).
  { unfold handleMessage.
    change (js "stderr:" ++ content) with (js "stderr" ++ colon :: content).
    rewrite (split_tag colon (js "stderr") content eq_refl), join_split.
    reflexivity. }
  rewrite H1, H2. repeat split.
Qed.

(** X7.  While the connection is open, what the bridge sends to the
    client is exactly the chunks read from the process, each tagged
    with its stream, in the order in which they were read; frames
    received from the client are not echoed. *)
Theorem output_is_forwarded_in_order (es : list Bridge.Event) :
  existsb Bridge.isClose es = false ->
  Bridge.sent (Bridge.run Bridge.handleWebSocket es)
  = flat_map (fun e => match e with
                       | Bridge.StdoutRead content => [js "stdout:" ++ content]
                       | Bridge.StderrRead content => [js "stderr:" ++ content]
                       | _ => []
                       end) es.
Proof.
  intros Hes.
  assert (G : forall s, existsb Bridge.isClose es = false ->
                        Bridge.sent (Bridge.run s es)
                        = Bridge.sent s
                            ++ flat_map (fun e => match e with
                                 | Bridge.StdoutRead content => [js "stdout:" ++ content]
                                 | Bridge.StderrRead content => [js "stderr:" ++ content]
                                 | _ => []
                                 end) es).
  { clear Hes. induction es as [|e es IH]; intros s Hes.
    - cbn. now rewrite app_nil_r.
    - cbn [existsb] in Hes. apply orb_false_iff in Hes. destruct Hes as [He Hes].
      unfold Bridge.run. cbn [fold_left flat_map].
      change (fold_left Bridge.step es (Bridge.step s e))
        with (Bridge.run (Bridge.step s e) es).
      rewrite (IH _ Hes).
      destruct e as [[data|data]| content | content |]; try discriminate He.
      + cbn [Bridge.step]. destruct (Bridge.closed s); reflexivity.
      + reflexivity.
      + cbn [Bridge.step Bridge.sent]. now rewrite <- app_assoc.
      + cbn [Bridge.step Bridge.sent]. now rewrite <- app_assoc. }
  apply (G Bridge.handleWebSocket Hes).
Qed.

Lemma output_is_forwarded_in_order_witness :
  Bridge.sent (Bridge.run Bridge.handleWebSocket
                          [Bridge.OnMessage (Bridge.Text (js "SELECT 1;"));
                           Bridge.StderrRead (js "warning: x");
                           Bridge.StdoutRead (js "[{1:1}]")])
  = [js "stderr:warning: x"; js "stdout:[{1:1}]"].
Proof.
  exact (output_is_forwarded_in_order
           [Bridge.OnMessage (Bridge.Text (js "SELECT 1;"));
            Bridge.StderrRead (js "warning: x");
            Bridge.StdoutRead (js "[{1:1}]")] eq_refl).
Defined.

Lemma run_closed (es : list Bridge.Event) :
  forall s, Bridge.closed s = true ->
            Bridge.stdin (Bridge.run s es) = Bridge.stdin s
            /\ Bridge.closed (Bridge.run s es) = true.
Proof.
  induction es as [|e es IH]; intros s Hs; [auto|].
  unfold Bridge.run. cbn [fold_left].
  change (fold_left Bridge.step es (Bridge.step s e))
    with (Bridge.run (Bridge.step s e) es).
  assert (H : Bridge.stdin (Bridge.step s e) = Bridge.stdin s
              /\ Bridge.closed (Bridge.step s e) = true).
  { destruct e as [[data|data]| content | content |]; cbn [Bridge.step];
      try rewrite Hs; auto. }
  destruct H as [H1 H2]. destruct (IH _ H2) as [H3 H4]. now rewrite H3, H1.
Qed.

(** X8.  After [ws.onclose] nothing is written to the process any
    more: whatever arrives after the close event, the process input is
    what it was when the connection closed. *)
Theorem nothing_is_written_after_close
        (s : Bridge.Session) (before after : list Bridge.Event) :
  Bridge.stdin (Bridge.run s (before ++ Bridge.OnClose :: after))
  = Bridge.stdin (Bridge.run s before).
Proof.
  unfold Bridge.run. rewrite fold_left_app. cbn [fold_left].
  change (fold_left Bridge.step before s) with (Bridge.run s before).
  change (fold_left Bridge.step after (Bridge.step (Bridge.run s before) Bridge.OnClose))
    with (Bridge.run (Bridge.step (Bridge.run s before) Bridge.OnClose) after).
  now rewrite (proj1 (run_closed after
                        (Bridge.step (Bridge.run s before) Bridge.OnClose) eq_refl)).
Qed.

(** ** The history cursor of the client *)

Lemma indexZ_ofIndexZ (z : Z) : (-1 <= z)%Z -> indexZ (ofIndexZ z) = z.
Proof.
  intros Hz. unfold ofIndexZ. destruct (z <? 0)%Z eqn:E.
  - apply Z.ltb_lt in E. cbn. lia.
  - apply Z.ltb_ge in E. cbn. now rewrite Z2Nat.id.
Qed.

(** Within the bounds, [recall] succeeds and shows the command under
    the cursor, or nothing at [-1]. *)
Lemma recall_in_bounds (a : Client.App) (z : Z) :
  (-1 <= z <= Z.of_nat (List.length (Client.previousCommands a)) - 1)%Z ->
  exists a',
    recall a z = Some a'
    /\ indexZ (Client.commandIndex a') = z
    /\ Client.previousCommands a' = Client.previousCommands a
    /\ match Client.commandIndex a' with
       | None => Client.currentQuery a' = []
       | Some n => exists c, nth_error (Client.previousCommands a) n = Some c
                             /\ Client.currentQuery a' = Client.query c
       end.
Proof.
  intros Hz. unfold recall.
  destruct (z =? -1)%Z eqn:E1.
  - apply Z.eqb_eq in E1. subst z. eexists. split; [reflexivity|].
    cbn. auto.
  - apply Z.eqb_neq in E1.
    assert (E2 : (z <? 0)%Z = false) by (apply Z.ltb_ge; lia). rewrite E2.
    destruct (nth_error (Client.previousCommands a) (Z.to_nat z)) as [c|] eqn:En.
    + eexists. split; [reflexivity|]. cbn [Client.commandIndex Client.previousCommands
                                            Client.currentQuery].
      split; [apply indexZ_ofIndexZ; lia|]. split; [reflexivity|].
      unfold ofIndexZ. rewrite E2. now exists c.
    + apply nth_error_None in En. lia.
Qed.

(** X9.  [navigateHistory] never reads outside the list of previous
    commands: from any state it succeeds, leaves the cursor between
    [-1] and the last index, keeps the list, and sets the current text
    to the command under the cursor, or to the empty text at [-1].
    The variant written with two tests does the same as the variant
    written with [Math.max] and [Math.min] whenever the cursor is
    within these bounds. *)
Theorem navigation_stays_in_bounds (direction : Direction) (a : Client.App) :
  (exists a',
      navigateHistory direction a = Some a'
      /\ (-1 <= indexZ (Client.commandIndex a')
          <= Z.of_nat (List.length (Client.previousCommands a)) - 1)%Z
      /\ Client.previousCommands a' = Client.previousCommands a
      /\ match Client.commandIndex a' with
         | None => Client.currentQuery a' = []
         | Some n => exists c, nth_error (Client.previousCommands a) n = Some c
                               /\ Client.currentQuery a' = Client.query c
         end)
  /\ ((-1 <= indexZ (Client.commandIndex a)
       <= Z.of_nat (List.length (Client.previousCommands a)) - 1)%Z ->
      navigateHistoryTests direction a = navigateHistory direction a).
Proof.
  split.
  - unfold navigateHistory. cbv zeta.
    remember (Z.max (-1)
                (Z.min (indexZ (Client.commandIndex a)
                        + match direction with Up => 1 | Down => -1 end)
                       (Z.of_nat (List.length (Client.previousCommands a)) - 1)))%Z as z.
    assert (Hz : (-1 <= z <= Z.of_nat (List.length (Client.previousCommands a)) - 1)%Z)
      by lia.
    destruct (recall_in_bounds a z Hz) as (a' & H1 & H2 & H3 & H4).
    exists a'. rewrite H2. auto.
  - intros Hb. unfold navigateHistoryTests, navigateHistory. cbv zeta.
    f_equal. destruct direction.
    + destruct (indexZ (Client.commandIndex a)
                <? Z.of_nat (List.length (Client.previousCommands a)) - 1)%Z eqn:E.
      * apply Z.ltb_lt in E. lia.
      * apply Z.ltb_ge in E. lia.
    + destruct (-1 <? indexZ (Client.commandIndex a))%Z eqn:E.
      * apply Z.ltb_lt in E. lia.
      * apply Z.ltb_ge in E. lia.
Qed.

Lemma navigation_stays_in_bounds_witness :
  let a := {| Client.ws := true; Client.currentQuery := [];
              Client.output := [];
              Client.previousCommands :=
                [{| Client.query := js "SELECT 2;"; Client.time := 0 |};
                 {| Client.query := js "SELECT 1;"; Client.time := 0 |}];
              Client.loading := false; Client.commandIndex := Some 1%nat;
              Client.startTime := 0; Client.outputBuffer := [] |} in
  navigateHistoryTests Up a = navigateHistory Up a
  /\ option_map Client.currentQuery (navigateHistory Up a) = Some (js "SELECT 1;").
Proof.
  intros a. split.
  - apply (proj2 (navigation_stays_in_bounds Up a)). cbn. lia.
  - vm_compute. reflexivity.
Defined.

(** X10.  Right after a command has been sent, one step up in the
    history recalls exactly the text that was sent, with the cursor on
    the first entry. *)
Theorem up_recalls_what_was_sent (now : N) (a : Client.App) (frame : jsstring) :
  snd (Client.sendQuery now a) = Some frame ->
  exists a',
    navigateHistory Up (fst (Client.sendQuery now a)) = Some a'
    /\ Client.currentQuery a' = frame
    /\ Client.commandIndex a' = Some 0%nat.
Proof.
  unfold Client.sendQuery.
  destruct (Client.isValidQuery a && Client.ws a); [|discriminate].
  cbn [fst snd]. intros H. inversion H; subst frame.
  unfold navigateHistory. cbn [Client.commandIndex Client.previousCommands indexZ].
  cbv zeta.
  assert (E : Z.max (-1)
                (Z.min (-1 + 1)
                       (Z.of_nat (List.length
                                    ({| Client.query := Client.currentQuery a;
                                        Client.time := 0 |}
                                       :: Client.previousCommands a)) - 1))%Z = 0%Z).
  { cbn [List.length]. lia. }
  rewrite E. eexists. split; [reflexivity|]. split; reflexivity.
Qed.

Lemma up_recalls_what_was_sent_witness :
  exists a',
    navigateHistory Up (fst (Client.sendQuery 7 (typing "SELECT 1;"))) = Some a'
    /\ Client.currentQuery a' = js "SELECT 1;"
    /\ Client.commandIndex a' = Some 0%nat.
Proof.
  apply (up_recalls_what_was_sent 7 (typing "SELECT 1;") (js "SELECT 1;")).
  vm_compute. reflexivity.
Defined.

(** ** The statements of the other REST handlers *)

Import RestBuild.

(** X11.  For a table name without a question mark, [DELETE
    /api/:table/:id] builds a completely substituted statement: its
    one question mark becomes [$1] and the id is the one argument of
    [EXECUTE].  [POST /api/:table] takes its columns and values from
    the [Body] object, which has neither: whatever the payload, the
    statement inserts a row without columns, has no placeholder to
    substitute and passes no argument to [EXECUTE], and that one line
    is all the handler writes to the process. *)
Theorem delete_is_substituted_post_is_not (table : jsstring) :
  countChar QM table = 0%nat ->
  (forall id,
      deleteCmd table id
      = js "PREPARE stmt AS DELETE FROM " ++ table
           ++ js " WHERE id = $1 RETURNING *; EXECUTE stmt (" ++ id ++ js ");")
  /\ (forall body : RequestBody,
         postSql table body = js "INSERT INTO " ++ table ++ js " () VALUES () RETURNING *"
         /\ postCmd table body
            = js "PREPARE stmt AS INSERT INTO " ++ table
                 ++ js " () VALUES () RETURNING *; EXECUTE stmt;")
  /\ (forall (body : RequestBody) (p : Proc),
         accepts p = None ->
         stdin (snd (postTable table body p))
         = stdin p ++ [js "PREPARE stmt AS INSERT INTO " ++ table
                          ++ js " () VALUES () RETURNING *; EXECUTE stmt;" ++ LF]).
Proof.
  intros Ht.
  assert (Hpost : forall body : RequestBody,
             postCmd table body
             = js "PREPARE stmt AS INSERT INTO " ++ table
                  ++ js " () VALUES () RETURNING *; EXECUTE stmt;").
  { intros body. unfold postCmd, queryCmd.
    rewrite fullSql_none.
    - unfold postSql. cbv zeta.
      cbn [objectKeys objectValues List.map join List.length Nat.ltb Nat.leb].
      unfold jsstring, codeunit. rewrite <- !app_assoc. reflexivity.
    - unfold postSql. cbv zeta. cbn [objectKeys objectValues List.map join].
      rewrite !countChar_app, Ht. reflexivity. }
  split; [|split].
  - intros id. unfold deleteCmd, queryCmd, deleteSql.
    change (js "DELETE FROM " ++ table ++ js " WHERE id = ? RETURNING *")
      with (js "DELETE FROM " ++ table ++ js " WHERE id = " ++ QM :: js " RETURNING *").
    rewrite !app_assoc, fullSql_first.
    + cbn [List.length Nat.ltb Nat.leb join]. unfold jsstring, codeunit.
      rewrite <- !app_assoc. reflexivity.
    + rewrite !countChar_app, Ht. reflexivity.
  - intros body. split; [reflexivity | apply Hpost].
  - intros body p Ha. unfold postTable, query.
    fold (postCmd table body).
    rewrite (proj2 (runCmd_accepts_all (postCmd table body) p Ha)), Hpost.
    unfold jsstring, codeunit. rewrite <- !app_assoc. reflexivity.
Qed.

(** A row to delete, and a row to insert whose two columns do not
    reach the statement. *)
Lemma delete_is_substituted_post_is_not_witness :
  deleteCmd (js "users") (js "7")
  = js "PREPARE stmt AS DELETE FROM users WHERE id = $1 RETURNING *; EXECUTE stmt (7);"
  /\ postCmd (js "users") twoColumns
     = js "PREPARE stmt AS INSERT INTO users () VALUES () RETURNING *; EXECUTE stmt;".
Proof.
  split.
  - rewrite (proj1 (delete_is_substituted_post_is_not (js "users") eq_refl)).
    vm_compute. reflexivity.
  - rewrite (proj2 (proj1 (proj2 (delete_is_substituted_post_is_not (js "users") eq_refl))
                          twoColumns)).
    vm_compute. reflexivity.
Defined.

Lemma get_other (key k v1 v2 : jsstring) (pre post : SearchParams) :
  Provisioner.jsEq k key = false ->
  get key (pre ++ (k, v1) :: post) = get key (pre ++ (k, v2) :: post).
Proof.
  intros Hk. induction pre as [|[k' v'] pre IH].
  - cbn [app get]. now rewrite Hk.
  - cbn [app get]. destruct (Provisioner.jsEq k' key); [reflexivity | exact IH].
Qed.

Lemma isFilter_not_reserved (k : jsstring) :
  isFilter k = true ->
  Provisioner.jsEq k (js "order") = false /\ Provisioner.jsEq k (js "limit") = false
  /\ Provisioner.jsEq k (js "offset") = false /\ Provisioner.jsEq k (js "format") = false.
Proof.
  unfold isFilter. intros H.
  apply andb_true_iff in H. destruct H as [H H4].
  apply andb_true_iff in H. destruct H as [H H3].
  apply andb_true_iff in H. destruct H as [H1 H2].
  repeat split; now apply negb_true_iff.
Qed.



(** ** The first server's provisioner *)

Lemma jsEq_true (a b : jsstring) : Provisioner.jsEq a b = true <-> a = b.
Proof.
  unfold Provisioner.jsEq. destruct (list_eq_dec N.eq_dec a b); split; congruence.
Qed.

Lemma legacy_url (os arch : jsstring) :
  Legacy.downloadUrl os arch <> None
  <-> os = js "windows" \/ os = js "darwin" \/ os = js "linux".
Proof.
  unfold Legacy.downloadUrl.
  destruct (Provisioner.jsEq os (js "windows")) eqn:E1.
  { apply jsEq_true in E1. split; [auto | discriminate]. }
  destruct (Provisioner.jsEq os (js "darwin")) eqn:E2.
  { apply jsEq_true in E2. split; [auto | discriminate]. }
  destruct (Provisioner.jsEq os (js "linux")) eqn:E3.
  { apply jsEq_true in E3. split; [auto | discriminate]. }
  split; [congruence|].
  intros [H | [H | H]]; apply jsEq_true in H; congruence.
Qed.

(** X13.  [ensureDuckDB] of the first server starts an installer at
    most once, and exactly when [./duckdb] is missing and the operating
    system is Windows, macOS or Linux.  It returns normally exactly
    when the binary was there or that installer succeeded.  An error of
    [Deno.stat] other than "not found" is rethrown before anything is
    done, and on another operating system it throws without starting
    any process.  On macOS the archive does not depend on the
    architecture. *)
Theorem legacy_installer_runs_only_when_needed (h : Legacy.Host) :
  let supported :=
    Legacy.os h = js "windows" \/ Legacy.os h = js "darwin" \/ Legacy.os h = js "linux" in
  (List.length (filter Legacy.isSpawn (snd (Legacy.ensureDuckDB h))) <= 1)%nat
  /\ (existsb Legacy.isSpawn (snd (Legacy.ensureDuckDB h)) = true
      <-> Legacy.stat h = Legacy.NotFound /\ supported)
  /\ (fst (Legacy.ensureDuckDB h) = inr tt
      <-> Legacy.stat h = Legacy.Found
          \/ (Legacy.stat h = Legacy.NotFound /\ supported /\ Legacy.installOk h = true))
  /\ (Legacy.stat h = Legacy.StatFailure ->
      Legacy.ensureDuckDB h = (inl Legacy.StatError, []))
  /\ (Legacy.stat h = Legacy.NotFound -> ~ supported ->
      fst (Legacy.ensureDuckDB h) = inl (Legacy.UnsupportedOS (Legacy.os h)))
  /\ (Legacy.stat h = Legacy.NotFound -> Legacy.os h = js "darwin" ->
      filter Legacy.isSpawn (snd (Legacy.ensureDuckDB h))
      = [Legacy.installCmd (js "darwin")
                           (Legacy.release ++ js "osx-universal.zip")]).
Proof.
  intros supported. subst supported.
  unfold Legacy.ensureDuckDB, Legacy.fileExists.
  remember (if Provisioner.jsEq (Legacy.arch h) (js "x86_64")
            then js "amd64" else Legacy.arch h) as arch.
  pose proof (legacy_url (Legacy.os h) arch) as Hurl.
  destruct (Legacy.stat h) eqn:Es.
  - cbn. repeat split; try lia; try discriminate; auto.
    all: try (intros [H _]; discriminate H).
  - destruct (Legacy.downloadUrl (Legacy.os h) arch) as [url|] eqn:Eu.
    + assert (Hs : Legacy.os h = js "windows" \/ Legacy.os h = js "darwin"
                   \/ Legacy.os h = js "linux") by (apply Hurl; discriminate).
      assert (Hsp : forall os' u, Legacy.isSpawn (Legacy.installCmd os' u) = true).
      { intros os' u. unfold Legacy.installCmd.
        destruct (Provisioner.jsEq os' (js "windows")); reflexivity. }
      destruct (Legacy.installOk h) eqn:Ei; cbn [fst snd filter existsb Legacy.isSpawn];
        rewrite Hsp; cbn [orb List.length].
      * repeat split; auto; try discriminate; try tauto.
        all: intros _ Hd; rewrite Hd in *; unfold Legacy.downloadUrl in Eu;
          cbn in Eu; inversion Eu; reflexivity.
      * repeat split; auto; try discriminate; try tauto.
        all: try (intros [H | (_ & _ & H)]; discriminate H).
        all: intros _ Hd; rewrite Hd in *; unfold Legacy.downloadUrl in Eu;
          cbn in Eu; inversion Eu; reflexivity.
    + assert (Hs : ~ (Legacy.os h = js "windows" \/ Legacy.os h = js "darwin"
                      \/ Legacy.os h = js "linux")) by (intros H; now apply Hurl in H).
      cbn [fst snd filter existsb Legacy.isSpawn orb List.length].
      repeat split; auto; try discriminate; try tauto.
      all: try (intros [H | (_ & H & _)]; [discriminate H | tauto]).
      all: intros _ Hd; exfalso; apply Hs; auto.
  - cbn. repeat split; try lia; try discriminate; auto.
    all: try (intros [H _]; discriminate H).
    intros [H | (H & _)]; discriminate H.
Qed.

(** ** The parameter field of the tester page *)

Lemma countChar_rev (c : codeunit) (s : jsstring) :
  countChar c (List.rev s) = countChar c s.
Proof.
  induction s as [|d s IH]; [reflexivity|].
  cbn [List.rev]. rewrite countChar_app, IH, !countChar_cons.
  destruct (c =? d); cbn; lia.
Qed.

Lemma countChar_trimStart (c : codeunit) (s : jsstring) :
  (countChar c (trimStart s) <= countChar c s)%nat.
Proof.
  induction s as [|d s IH]; [cbn; lia|].
  cbn [trimStart]. destruct (isWhiteSpace d); [|lia].
  rewrite countChar_cons. destruct (c =? d); lia.
Qed.

Lemma countChar_trim (c : codeunit) (s : jsstring) :
  (countChar c (trim s) <= countChar c s)%nat.
Proof.
  unfold trim, trimEnd. rewrite countChar_rev.
  pose proof (countChar_trimStart c (List.rev (trimStart s))) as H1.
  rewrite countChar_rev in H1.
  pose proof (countChar_trimStart c s). lia.
Qed.

Lemma split_pieces (sep : codeunit) (s : jsstring) :
  Forall (fun p => countChar sep p = 0%nat) (split sep s).
Proof.
  induction s as [|c s IH]; [repeat constructor|].
  cbn [split]. destruct (c =? sep) eqn:E.
  - constructor; [reflexivity | exact IH].
  - destruct (split sep s) as [|h t]; [repeat constructor|].
    + rewrite countChar_cons, N.eqb_sym, E. reflexivity.
    + inversion IH; subst. constructor; [|assumption].
      rewrite countChar_cons, N.eqb_sym, E. assumption.
Qed.

(** X14.  Every parameter that the tester page sends is non-empty,
    has no white space at either end and holds no comma: empty items
    and items of white space only are dropped, so a field of commas
    and blanks sends no parameter at all. *)
Theorem parameters_are_clean (params : jsstring) :
  Forall (fun p => p <> [] /\ trim p = p /\ countChar 0x2C p = 0%nat
                   /\ exists c d t u, p = c :: t /\ p = u ++ [d]
                                      /\ isWhiteSpace c = false
                                      /\ isWhiteSpace d = false)
         (paramArray params)
  /\ (forallb (fun c => isWhiteSpace c || (c =? 0x2C)) params = true ->
      paramArray params = []).
Proof.
  split.
  - unfold paramArray. apply Forall_forall. intros p Hin.
    apply filter_In in Hin. destruct Hin as [Hin Hne].
    apply in_map_iff in Hin. destruct Hin as (q & <- & Hq).
    assert (Hn : trim q <> []).
    { intros E. rewrite E in Hne. discriminate Hne. }
    split; [exact Hn|]. split; [apply trim_idempotent|]. split.
    + pose proof (split_pieces 0x2C params) as Hp.
      rewrite Forall_forall in Hp. specialize (Hp q Hq).
      pose proof (countChar_trim 0x2C q). lia.
    + destruct (trim_ends q) as [E | H]; [contradiction | exact H].
  - intros Hall. unfold paramArray.
    assert (G : forall s, forallb (fun c => isWhiteSpace c || (c =? 0x2C)) s = true ->
                          Forall (fun q => forallb isWhiteSpace q = true)
                                 (split 0x2C s)).
    { induction s as [|c s IH]; intros Hs; [repeat constructor|].
      cbn [forallb] in Hs. apply andb_true_iff in Hs. destruct Hs as [Hc Hs].
      specialize (IH Hs). cbn [split]. destruct (c =? 0x2C) eqn:E.
      - constructor; [reflexivity | exact IH].
      - rewrite orb_false_r in Hc.
        destruct (split 0x2C s) as [|h t]; [repeat constructor; cbn; now rewrite Hc|].
        inversion IH; subst. constructor; [|assumption].
        cbn [forallb]. now rewrite Hc. }
    assert (T : forall q, forallb isWhiteSpace q = true -> trim q = []).
    { intros q Hq. unfold trim, trimEnd.
      assert (E : trimStart q = []).
      { induction q as [|c q IHq]; [reflexivity|].
        cbn [forallb] in Hq. apply andb_true_iff in Hq. destruct Hq as [Hc Hq].
        cbn [trimStart]. rewrite Hc. now apply IHq. }
      rewrite E. reflexivity. }
    specialize (G params Hall).
    induction (split 0x2C params) as [|q l IH]; [reflexivity|].
    inversion G; subst. cbn [List.map filter]. rewrite (T q) by assumption.
    cbn. now apply IH.
Qed.

(** ** Fingerprints of texts with unpaired surrogates *)

(** X15.  [hashQuery] encodes an unpaired low surrogate as U+FFFD, so
    it does not tell two such code units apart: texts that differ only
    in a leading unpaired low surrogate have the same fingerprint. *)
Theorem unpaired_surrogates_collide (c d : codeunit) (rest : jsstring) :
  isLowSurrogate c = true -> isLowSurrogate d = true ->
  hashQuery (c :: rest) = hashQuery (d :: rest).
Proof.
  intros Hc Hd. unfold hashQuery. cbv zeta.
  assert (E : forall x, isLowSurrogate x = true ->
                        encode (x :: rest) = utf8 0xFFFD ++ encode rest).
  { intros x Hx. cbn [encode]. rewrite Hx.
    assert (Hh : isHighSurrogate x = false).
    { unfold isLowSurrogate, isHighSurrogate in *.
      apply andb_true_iff in Hx. destruct Hx as [H1 H2].
      apply N.leb_le in H1. apply andb_false_iff. right. apply N.leb_gt. lia. }
    now rewrite Hh. }
  now rewrite (E c Hc), (E d Hd).
Qed.

Lemma unpaired_surrogates_collide_witness :
  hashQuery (0xDC00 :: js "SELECT 1;") = hashQuery (0xDFFF :: js "SELECT 1;")
  /\ 0xDC00 :: js "SELECT 1;" <> 0xDFFF :: js "SELECT 1;".
Proof.
  split.
  - apply unpaired_surrogates_collide; reflexivity.
  - discriminate.
Defined.

(** ** The Enter key *)

Lemma trim_snoc (u : jsstring) (c : codeunit) :
  isWhiteSpace c = false -> trim (u ++ [c]) = trimStart u ++ [c].
Proof.
  intros Hc. unfold trim, trimEnd.
  rewrite (trimStart_app u c [] Hc), rev_app_distr. cbn [List.rev app].
  rewrite (trimStart_keep c _ Hc). cbn [List.rev]. now rewrite rev_involutive.
Qed.

Lemma endsWith_snoc (u : jsstring) (c : codeunit) : endsWith (u ++ [c]) [c] = true.
Proof.
  unfold endsWith. rewrite rev_app_distr. cbn [List.rev app startsWith].
  now rewrite N.eqb_refl.
Qed.

(** X16.  With the text area showing the current text and the socket
    open, Enter sends the current text only without Shift and only if
    the text is well formed; otherwise nothing is sent and a line feed
    replaces the selection.  Hence a statement typed without its
    semicolon is not lost: Enter at its end adds a line feed, and once
    a semicolon is typed after it the next Enter sends the whole text,
    which holds that line feed between the statement and the
    semicolon. *)
Theorem enter_key_continues_the_statement
        (shiftKey : bool) (selectionStart selectionEnd : nat)
        (now : N) (a : Client.App) :
  Client.ws a = true ->
  (forall frame,
      snd (handleEnterKey shiftKey selectionStart selectionEnd
                          (Client.currentQuery a) now a) = Some frame
      <-> shiftKey = false /\ Client.isValidQuery a = true
          /\ frame = Client.currentQuery a)
  /\ (shiftKey || negb (Client.isValidQuery a) = true ->
      Client.currentQuery
        (fst (handleEnterKey shiftKey selectionStart selectionEnd
                             (Client.currentQuery a) now a))
      = firstn selectionStart (Client.currentQuery a) ++ LF
          ++ skipn selectionEnd (Client.currentQuery a))
  /\ (Client.isValidQuery a = false ->
      let n := List.length (Client.currentQuery a) in
      let a1 := fst (handleEnterKey false n n (Client.currentQuery a) now a) in
      let a2 := typeAtEnd (js ";") a1 in
      snd (handleEnterKey false (S (S n)) (S (S n)) (Client.currentQuery a2) now a2)
      = Some (Client.currentQuery a ++ LF ++ js ";")).
Proof.
  intros Hws. split; [|split].
  - intros frame. unfold handleEnterKey, Client.sendQuery.
    destruct shiftKey; destruct (Client.isValidQuery a) eqn:Ev; rewrite ?Hws;
      cbn [negb andb snd]; split;
        try (intros H; inversion H; auto; fail);
        try (intros (H1 & H2 & H3); congruence).
  - intros H. unfold handleEnterKey.
    destruct shiftKey; destruct (Client.isValidQuery a); try discriminate H; reflexivity.
  - intros Hv n a1 a2.
    assert (E1 : Client.currentQuery a1 = Client.currentQuery a ++ LF
                 /\ Client.ws a1 = true).
    { subst a1 n. unfold handleEnterKey. rewrite Hv. cbn [negb andb fst].
      cbn [Client.currentQuery Client.ws].
      now rewrite firstn_all, skipn_all, app_nil_r. }
    destruct E1 as [E1 E2].
    assert (E3 : Client.currentQuery a2 = (Client.currentQuery a ++ LF) ++ js ";"
                 /\ Client.ws a2 = true).
    { subst a2. unfold typeAtEnd. cbn [Client.currentQuery Client.ws].
      now rewrite E1, E2. }
    destruct E3 as [E3 E4].
    assert (E : Client.isValidQuery a2 = true).
    { unfold Client.isValidQuery. rewrite E3. cbv zeta.
      change (js ";") with [0x3B]. rewrite trim_snoc by reflexivity.
      rewrite endsWith_snoc. apply orb_true_r. }
    unfold handleEnterKey, Client.sendQuery. rewrite E, E4. cbn [negb andb snd].
    now rewrite E3, <- app_assoc.
Qed.

(** Scenario C of the client: [SELECT 1], Enter, [;], Enter. *)
Lemma enter_key_continues_the_statement_witness :
  let a := typing "SELECT 1" in
  let a1 := fst (handleEnterKey false 8 8 (Client.currentQuery a) 5 a) in
  let a2 := typeAtEnd (js ";") a1 in
  snd (handleEnterKey false 8 8 (Client.currentQuery a) 5 a) = None
  /\ snd (handleEnterKey false 10 10 (Client.currentQuery a2) 6 a2)
     = Some (js "SELECT 1" ++ LF ++ js ";").
Proof.
  intros a a1 a2. split.
  - vm_compute. reflexivity.
  - exact (proj2 (proj2 (enter_key_continues_the_statement false 0 0 6 a eq_refl))
                 eq_refl).
Defined.

(** ** [runCmd]: when it cannot settle *)

Lemma includes_prefix (a b m : jsstring) :
  includes a m = true -> includes (a ++ b) m = true.
Proof.
  intros H. destruct (includes_split m a H) as (pre & post & ->).
  rewrite <- !app_assoc. apply includes_app.
Qed.

(** X17.  While stdout stays open and the text it delivers does not
    contain [Run Time:], a call of [runCmd] whose line the pipe took
    never settles, and it reads nothing from stderr, whatever stderr
    holds. *)
Theorem no_marker_no_completion (cmd : jsstring) (p p1 : Proc) :
  write (cmd ++ LF) p = Some p1 ->
  final (stdout p) = Silent ->
  includes (List.concat (chunks (stdout p))) marker = false ->
  fst (runCmd cmd p) = Pending
  /\ stderr (snd (runCmd cmd p)) = stderr p
  /\ stdout (snd (runCmd cmd p)) = {| chunks := []; final := Silent |}
  /\ stdin (snd (runCmd cmd p)) = stdin p ++ [cmd ++ LF].
Proof.
  intros Hw Hf Hm. unfold runCmd. rewrite Hw.
  destruct (write_streams _ _ _ Hw) as (Hin & Hso & Hse).
  unfold awaitCmd. rewrite Hso, Hse. unfold readStdout.
  destruct (readLoop_spec (fun out => includes out marker)
                          (chunks (stdout p)) (final (stdout p)) [])
    as (taken & rest & exit & Hcs & Hrun & _ & Hcase).
  rewrite Hrun. destruct exit.
  - destruct Hcase as [_ Hstop]. cbn [app] in Hstop.
    rewrite Hcs, concat_app in Hm.
    rewrite (includes_prefix _ _ _ Hstop) in Hm. discriminate Hm.
  - destruct Hcase as [_ Hc]. congruence.
  - destruct Hcase as [-> _]. cbn [fst snd stderr stdout stdin].
    rewrite Hf. auto.
Qed.

Lemma no_marker_no_completion_witness :
  fst (runCmd (js "SELECT * FROM nope;") failingSelect) = Pending
  /\ stderr (snd (runCmd (js "SELECT * FROM nope;") failingSelect))
     = stderr failingSelect.
Proof.
  destruct (no_marker_no_completion
              (js "SELECT * FROM nope;") failingSelect
              {| stdin := [js "SELECT * FROM nope;" ++ LF]; accepts := None;
                 stdout := stdout failingSelect; stderr := stderr failingSelect |}
              eq_refl eq_refl ltac:(vm_compute; reflexivity))
    as (H1 & H2 & _).
  split; assumption.
Defined.
